(** * bt-bot: the article extractor and the ingestion loop

    A shallow embedding of [src/ingest_html_via_api.py]:
    [extract_article_data] (the extractor) and [ingest_html_files]
    (the batch ingestor), together with the parts of the Python runtime
    they call ([str] methods, the [re] patterns, UTF-8 encoding,
    [hashlib.sha256], the Beautiful Soup tree queries) and a model of the
    external store.

    Conventions.
    - A Python [str] is a list of code points ([N]); lone surrogates are
      legal elements of a [str], as they are in Python.
    - Code that may raise returns a [Result]; [try]/[except] is a match on it.
    - The markup parser ([BeautifulSoup(html, 'html.parser')]) and the ISO
      date parser ([datetime.fromisoformat]) are third-party code: they are
      section variables, and every theorem holds for all of them.
    - [print] appends one entry to the console, and never fails.
    - The store is a remote service whose code is not in the repository:
      it is modelled from its contract (point lookups by [content_hash]
      and by [title], insert-one), with the failures the loop handles
      (a call that raises, an insert that returns nothing) as explicit
      [Conditions] of each iteration.  A call that raises or returns
      nothing stores no row.
    - [get_supabase_client()] has returned a client, and the directory has
      been listed: [ingest_html_files] starts from the sorted files. *)

From Stdlib Require Import String Ascii.
From Stdlib Require Import List NArith Arith Bool Lia.
Import ListNotations.

Set Implicit Arguments.
Set Warnings "-register-all".

(* ================================================================== *)
(** ** Python strings *)

Module Py.

Definition char := N.
Definition str := list char.

(** An ASCII literal as a [str]. *)
Definition py (x : string) : str := map N_of_ascii (list_ascii_of_string x).

Definition NEWLINE : char := 10%N.
Definition SPACE : char := 32%N.
Definition EN_DASH : char := 8211%N.      (* U+2013 *)
Definition HYPHEN : char := 45%N.         (* U+002D *)
Definition CHECK_MARK : char := 10003%N.  (* U+2713 *)
Definition BALLOT_X : char := 10007%N.    (* U+2717 *)

Definition str_eqb (a b : str) : bool :=
  if list_eq_dec N.eq_dec a b then true else false.

(** [str.isspace] on one code point; [str.strip], [str.split] and the
    pattern [\s] all use this set. *)
Definition isspace (c : char) : bool :=
  ((9 <=? c) && (c <=? 13) || (28 <=? c) && (c <=? 32)
   || (c =? 133) || (c =? 160) || (c =? 5760)
   || (8192 <=? c) && (c <=? 8202)
   || (c =? 8232) || (c =? 8233) || (c =? 8239) || (c =? 8287)
   || (c =? 12288))%N.

(** What is left of [s] after its longest prefix of characters in [p],
    and the length of that prefix. *)
Fixpoint drop_while (p : char -> bool) (s : str) : str :=
  match s with
  | c :: s' => if p c then drop_while p s' else s
  | [] => []
  end.

Fixpoint run_length (p : char -> bool) (s : str) : nat :=
  match s with
  | c :: s' => if p c then S (run_length p s') else 0
  | [] => 0
  end.

Definition lstrip (s : str) : str := drop_while isspace s.

Definition rstrip (s : str) : str := rev (lstrip (rev s)).

(** [s.strip()] *)
Definition strip (s : str) : str := rstrip (lstrip s).

(** [s.split()]: the maximal runs of non-whitespace; [cur] is the token
    being read, reversed. *)
Fixpoint split_acc (cur : str) (s : str) : list str :=
  match s with
  | [] => match cur with [] => [] | _ => [rev cur] end
  | c :: s' =>
      if isspace c
      then match cur with
           | [] => split_acc [] s'
           | _ => rev cur :: split_acc [] s'
           end
      else split_acc (c :: cur) s'
  end.

Definition split (s : str) : list str := split_acc [] s.

(** [sep.join(parts)] *)
Fixpoint join (sep : str) (parts : list str) : str :=
  match parts with
  | [] => []
  | [p] => p
  | p :: ps => p ++ sep ++ join sep ps
  end.

Fixpoint startswith (s prefix : str) : bool :=
  match prefix, s with
  | [], _ => true
  | p :: prefix', c :: s' => (c =? p)%N && startswith s' prefix'
  | _ :: _, [] => false
  end.

(** [s.replace(old, new)] for a non-empty [old]: every occurrence, left to
    right, without overlap.  [skip] counts the characters of the current
    occurrence that are still to be dropped. *)
Fixpoint replace_from (old new : str) (skip : nat) (s : str) : str :=
  match s with
  | [] => []
  | c :: s' =>
      match skip with
      | S k => replace_from old new k s'
      | O => if startswith s old
             then new ++ replace_from old new (length old - 1) s'
             else c :: replace_from old new 0 s'
      end
  end.

Definition replace (s old new : str) : str := replace_from old new 0 s.

(** [s[:n]] *)
Definition slice_to (n : nat) (s : str) : str := firstn n s.

(** [c * n] for a one-character string *)
Definition times (c : char) (n : nat) : str := repeat c n.

(** Decimal digits of a natural number, as [str(n)] prints them. *)
Fixpoint digits_fuel (fuel : nat) (n : nat) (acc : str) : str :=
  match fuel with
  | O => acc
  | S f =>
      let d := (48 + N.of_nat (n mod 10))%N in
      if n <? 10 then d :: acc else digits_fuel f (n / 10) (d :: acc)
  end.

Definition str_of_nat (n : nat) : str := digits_fuel (S n) n [].

(** What is left of [s] when it is cut where [P] first holds of the rest:
    the effect of deleting, with [re.sub], a pattern whose matches all run
    to the end of the string. *)
Fixpoint cut_where (P : str -> bool) (s : str) : str :=
  if P s then []
  else match s with
       | [] => []
       | c :: s' => c :: cut_where P s'
       end.

(** Whitespace only; and the number of characters that are not. *)
Definition all_space (w : str) : Prop := forallb isspace w = true.

Definition nonspace (s : str) : nat :=
  length (filter (fun c => negb (isspace c)) s).

End Py.
Export Py.

(* ================================================================== *)
(** ** The subset of [re] the program uses *)

Module Re.

Record flags := { IGNORECASE : bool; DOTALL : bool }.

Definition no_flags : flags := {| IGNORECASE := false; DOTALL := false |}.

(** One-character pattern items. *)
Inductive item :=
| Lit (c : char)             (* a literal character *)
| CharSet (cs : list char)   (* [...] of literal characters *)
| Whitespace                 (* \s *)
| AnyChar.                   (* . *)

Inductive regex :=
| One (i : item)
| Rep (i : item) (min : nat)   (* i{min,}, greedy; i* is [Rep i 0] *)
| Cat (r1 r2 : regex)
| Alt (r1 r2 : regex)
| Eps
| Dollar.                      (* $ without MULTILINE *)

(** A literal string. *)
Fixpoint lits (s : str) : regex :=
  match s with
  | [] => Eps
  | c :: s' => Cat (One (Lit c)) (lits s')
  end.

(** The code points a literal ASCII letter matches under IGNORECASE in a
    [str] pattern: both cases, and the code points the engine folds onto
    the letter (U+0130 and U+0131 onto i, U+017F onto s, U+212A onto k).
    A character that is not an ASCII letter matches itself. *)
Definition case_class (c : char) : list char :=
  let lower := if ((65 <=? c) && (c <=? 90))%N then (c + 32)%N else c in
  if ((97 <=? lower) && (lower <=? 122))%N
  then lower :: (lower - 32)%N ::
       (if (lower =? 105)%N then [304; 305]
        else if (lower =? 115)%N then [383]
        else if (lower =? 107)%N then [8490]
        else [])%N
  else [c].

Definition lit_match (fl : flags) (a c : char) : bool :=
  if IGNORECASE fl then existsb (N.eqb c) (case_class a) else (c =? a)%N.

Definition item_match (fl : flags) (i : item) (c : char) : bool :=
  match i with
  | Lit a => lit_match fl a c
  | CharSet cs => existsb (fun a => lit_match fl a c) cs
  | Whitespace => isspace c
  | AnyChar => DOTALL fl || negb (c =? NEWLINE)%N
  end.

(** Backtracking matcher in continuation-passing style: [k] receives the
    rest of the input; the first success wins, so a greedy repetition tries
    the longest run first and gives characters back one at a time. *)
Fixpoint rep_k {A} (p : char -> bool) (min : nat) (s : str)
    (k : str -> option A) : option A :=
  let stop := match min with O => k s | S _ => None end in
  match s with
  | c :: s' =>
      if p c
      then match rep_k p (pred min) s' k with
           | Some r => Some r
           | None => stop
           end
      else stop
  | [] => stop
  end.

Fixpoint match_k {A} (fl : flags) (r : regex) (s : str)
    (k : str -> option A) : option A :=
  match r with
  | One i =>
      match s with
      | c :: s' => if item_match fl i c then k s' else None
      | [] => None
      end
  | Rep i n => rep_k (item_match fl i) n s k
  | Cat r1 r2 => match_k fl r1 s (fun s1 => match_k fl r2 s1 k)
  | Alt r1 r2 =>
      match match_k fl r1 s k with
      | Some x => Some x
      | None => match_k fl r2 s k
      end
  | Eps => k s
  | Dollar =>
      match s with
      | [] => k s
      | [c] => if (c =? NEWLINE)%N then k s else None
      | _ => None
      end
  end.

(** A match anchored at the start of [s]; the result is what follows it. *)
Definition match_at (fl : flags) (r : regex) (s : str) : option str :=
  match_k fl r s (fun rest => Some rest).

(** [pattern.search(s)], as a truth value. *)
Fixpoint search (fl : flags) (r : regex) (s : str) : bool :=
  match match_at fl r s with
  | Some _ => true
  | None => match s with [] => false | _ :: s' => search fl r s' end
  end.

(** [re.sub(pattern, repl, s)] for a literal replacement: the leftmost
    match is replaced and the scan resumes after it.  [skip] counts the
    characters of the current match still to be dropped.  A match of
    length zero emits the replacement and copies one character. *)
Fixpoint sub_from (fl : flags) (r : regex) (repl : str) (skip : nat)
    (s : str) {struct s} : str :=
  match skip with
  | S k =>
      match s with
      | [] => []
      | _ :: s' => sub_from fl r repl k s'
      end
  | O =>
      match match_at fl r s with
      | Some rest =>
          match s with
          | [] => repl
          | c :: s' =>
              match length s - length rest with
              | O => repl ++ c :: sub_from fl r repl 0 s'
              | S k => repl ++ sub_from fl r repl k s'
              end
          end
      | None =>
          match s with
          | [] => []
          | c :: s' => c :: sub_from fl r repl 0 s'
          end
      end
  end.

Definition sub (fl : flags) (r : regex) (repl s : str) : str :=
  sub_from fl r repl 0 s.

End Re.
Export Re.


(* ================================================================== *)
(** ** Exceptions *)

Module Exn.

(** The exceptions the program can meet; all are subclasses of
    [Exception], which is what the ingestion loop catches.
    [UnicodeEncodeError] is the one the program's own code raises:
    [obj] is the string being encoded and [start, stop) the run of
    surrogates the codec stopped at.  [AttributeError] is what a method
    call on [None] raises.  [Raised] is any other exception object (an
    [OSError] of [open], a [UnicodeDecodeError] of [read], an error of the
    store's client), with its class name and the text [str(e)] gives. *)
Inductive Exception :=
| UnicodeEncodeError (obj : str) (start stop : nat)
| AttributeError (message : str)
| Raised (class_name message : str).

Inductive Result (A : Type) :=
| Ok (a : A)
| Err (e : Exception).

Arguments Ok {A} a.
Arguments Err {A} e.

Definition bind {A B} (m : Result A) (k : A -> Result B) : Result B :=
  match m with
  | Ok a => k a
  | Err e => Err e
  end.

End Exn.
Export Exn.

(* ================================================================== *)
(** ** Bytes: UTF-8, SHA-256, hexadecimal *)

Module Codec.

Local Open Scope N_scope.

Definition is_surrogate (c : char) : bool := (55296 <=? c) && (c <=? 57343).

(** The UTF-8 bytes of one code point that is not a surrogate. *)
Definition utf8_char (c : char) : list N :=
  if c <? 128 then [c]
  else if c <? 2048 then
    [N.lor 192 (N.shiftr c 6); N.lor 128 (N.land c 63)]
  else if c <? 65536 then
    [N.lor 224 (N.shiftr c 12);
     N.lor 128 (N.land (N.shiftr c 6) 63);
     N.lor 128 (N.land c 63)]
  else
    [N.lor 240 (N.shiftr c 18);
     N.lor 128 (N.land (N.shiftr c 12) 63);
     N.lor 128 (N.land (N.shiftr c 6) 63);
     N.lor 128 (N.land c 63)].

(** Length of the run of surrogates at the head of [s]. *)
Fixpoint surrogate_run (s : str) : nat :=
  match s with
  | c :: s' => if is_surrogate c then S (surrogate_run s') else O
  | [] => O
  end.

(** [obj.encode('utf-8')], scanning [s], the part of [obj] from index
    [pos] on.  The strict error handler raises at the first surrogate. *)
Fixpoint encode_from (obj : str) (pos : nat) (s : str) : Result (list N) :=
  match s with
  | [] => Ok []
  | c :: s' =>
      if is_surrogate c
      then Err (UnicodeEncodeError obj pos (pos + surrogate_run s)%nat)
      else match encode_from obj (S pos) s' with
           | Ok bs => Ok (utf8_char c ++ bs)
           | Err e => Err e
           end
  end.

Definition encode_utf8 (s : str) : Result (list N) := encode_from s 0 s.

(** *** SHA-256 (FIPS 180-4) on 32-bit words held in [N] *)

Definition mask32 (x : N) : N := x mod 4294967296.
Definition add32 (x y : N) : N := mask32 (x + y).
Definition rotr32 (n x : N) : N :=
  N.lor (N.shiftr x n) (mask32 (N.shiftl x (32 - n))).
Definition not32 (x : N) : N := N.lxor x 4294967295.

Definition ch (x y z : N) := N.lxor (N.land x y) (N.land (not32 x) z).
Definition maj (x y z : N) :=
  N.lxor (N.lxor (N.land x y) (N.land x z)) (N.land y z).
Definition big_sigma0 x := N.lxor (N.lxor (rotr32 2 x) (rotr32 13 x)) (rotr32 22 x).
Definition big_sigma1 x := N.lxor (N.lxor (rotr32 6 x) (rotr32 11 x)) (rotr32 25 x).
Definition small_sigma0 x := N.lxor (N.lxor (rotr32 7 x) (rotr32 18 x)) (N.shiftr x 3).
Definition small_sigma1 x := N.lxor (N.lxor (rotr32 17 x) (rotr32 19 x)) (N.shiftr x 10).

Definition round_constants : list N :=
  [1116352408; 1899447441; 3049323471; 3921009573; 961987163; 1508970993;
   2453635748; 2870763221; 3624381080; 310598401; 607225278; 1426881987;
   1925078388; 2162078206; 2614888103; 3248222580; 3835390401; 4022224774;
   264347078; 604807628; 770255983; 1249150122; 1555081692; 1996064986;
   2554220882; 2821834349; 2952996808; 3210313671; 3336571891; 3584528711;
   113926993; 338241895; 666307205; 773529912; 1294757372; 1396182291;
   1695183700; 1986661051; 2177026350; 2456956037; 2730485921; 2820302411;
   3259730800; 3345764771; 3516065817; 3600352804; 4094571909; 275423344;
   430227734; 506948616; 659060556; 883997877; 958139571; 1322822218;
   1537002063; 1747873779; 1955562222; 2024104815; 2227730452; 2361852424;
   2428436474; 2756734187; 3204031479; 3329325298].

Record hash_state := mk_state {
  ha : N; hb : N; hc : N; hd : N; he : N; hf : N; hg : N; hh : N }.

Definition initial_state : hash_state :=
  mk_state 1779033703 3144134277 1013904242 2773480762
           1359893119 2600822924 528734635 1541459225.

(** Big-endian 32-bit words of a block of bytes. *)
Fixpoint words_of_bytes (bs : list N) : list N :=
  match bs with
  | b0 :: b1 :: b2 :: b3 :: rest =>
      (b0 * 16777216 + b1 * 65536 + b2 * 256 + b3) :: words_of_bytes rest
  | _ => []
  end.

(** The message schedule, newest word first: [n] further words are added
    to the reversed list [ws]. *)
Fixpoint extend_schedule (n : nat) (ws : list N) : list N :=
  match n with
  | O => ws
  | S n' =>
      let w2 := nth 1 ws 0 in
      let w7 := nth 6 ws 0 in
      let w15 := nth 14 ws 0 in
      let w16 := nth 15 ws 0 in
      extend_schedule n'
        (add32 (add32 (small_sigma1 w2) w7) (add32 (small_sigma0 w15) w16) :: ws)
  end.

Definition schedule (block : list N) : list N :=
  rev (extend_schedule 48 (rev (words_of_bytes block))).

Definition round (st : hash_state) (kw : N * N) : hash_state :=
  let t1 := add32 (add32 (add32 (hh st) (big_sigma1 (he st)))
                         (add32 (ch (he st) (hf st) (hg st)) (fst kw)))
                  (snd kw) in
  let t2 := add32 (big_sigma0 (ha st)) (maj (ha st) (hb st) (hc st)) in
  mk_state (add32 t1 t2) (ha st) (hb st) (hc st)
           (add32 (hd st) t1) (he st) (hf st) (hg st).

Definition compress (st : hash_state) (block : list N) : hash_state :=
  let r := fold_left round (combine round_constants (schedule block)) st in
  mk_state (add32 (ha st) (ha r)) (add32 (hb st) (hb r))
           (add32 (hc st) (hc r)) (add32 (hd st) (hd r))
           (add32 (he st) (he r)) (add32 (hf st) (hf r))
           (add32 (hg st) (hg r)) (add32 (hh st) (hh r)).

(** Big-endian bytes of [x], [n] of them. *)
Fixpoint be_bytes (n : nat) (x : N) : list N :=
  match n with
  | O => []
  | S n' => be_bytes n' (x / 256) ++ [x mod 256]
  end.

(** The message followed by the bit 1, zeros up to 56 modulo 64, and the
    length in bits as a 64-bit big-endian number. *)
Definition pad (msg : list N) : list N :=
  let len := length msg in
  let zeros := ((64 - (len + 9) mod 64) mod 64)%nat in
  msg ++ [128] ++ repeat 0 zeros ++ be_bytes 8 (8 * N.of_nat len).

Fixpoint blocks (count : nat) (bs : list N) : list (list N) :=
  match count with
  | O => []
  | S count' => firstn 64 bs :: blocks count' (skipn 64 bs)
  end.

Definition sha256_state (msg : list N) : hash_state :=
  let padded := pad msg in
  fold_left compress (blocks (length padded / 64) padded) initial_state.

Definition hex_digit (d : N) : char := if d <? 10 then 48 + d else 87 + d.

(** [n] lowercase hexadecimal digits of [x], most significant first. *)
Fixpoint hex (n : nat) (x : N) : str :=
  match n with
  | O => []
  | S n' => hex n' (x / 16) ++ [hex_digit (x mod 16)]
  end.

(** [hashlib.sha256(msg).hexdigest()] *)
Definition sha256_hexdigest (msg : list N) : str :=
  let st := sha256_state msg in
  flat_map (hex 8) [ha st; hb st; hc st; hd st; he st; hf st; hg st; hh st].



End Codec.
Export Codec.

(* ================================================================== *)
(** ** The Beautiful Soup tree and the queries the extractor makes *)

Module Bs4.

(** The classes of string nodes.  [get_text] keeps the strings whose class
    is exactly [NavigableString] or [CData]. *)
Inductive StringClass :=
| NavigableString | CData | Comment | Declaration | Doctype
| ProcessingInstruction | Script | Stylesheet | TemplateString.

(** A node of the parse tree.  Attribute values are kept as written; the
    multi-valued ones ([class], [rel]) are split on whitespace where they
    are matched, which is what the tree builder does when it stores them. *)
Inductive PageElement :=
| Tag (name : str) (attrs : list (str * str)) (contents : list PageElement)
| Str (cls : StringClass) (text : str).

Definition is_text_class (c : StringClass) : bool :=
  match c with
  | NavigableString | CData => true
  | _ => false
  end.

(** The node itself followed by its descendants, in document order. *)
Fixpoint self_and_descendants (e : PageElement) : list PageElement :=
  match e with
  | Tag _ _ cs => e :: flat_map self_and_descendants cs
  | Str _ _ => [e]
  end.

(** [tag.descendants] *)
Definition descendants (e : PageElement) : list PageElement :=
  match e with
  | Tag _ _ cs => flat_map self_and_descendants cs
  | Str _ _ => []
  end.

(** [tag.get(key)] *)
Fixpoint lookup (key : str) (attrs : list (str * str)) : option str :=
  match attrs with
  | [] => None
  | (k, v) :: rest => if str_eqb k key then Some v else lookup key rest
  end.

Definition get (e : PageElement) (key : str) : option str :=
  match e with
  | Tag _ attrs _ => lookup key attrs
  | Str _ _ => None
  end.

(** The value of a multi-valued attribute, as the list the tree holds. *)
Definition values (e : PageElement) (key : str) : option (list str) :=
  option_map split (get e key).

(** Matching a multi-valued attribute against a string: some value is the
    string, or the values joined by a space are. *)
Definition values_match_str (vs : list str) (wanted : str) : bool :=
  existsb (fun v => str_eqb v wanted) vs || str_eqb (join [SPACE] vs) wanted.

(** Matching a multi-valued attribute against a compiled pattern:
    [pattern.search] on some value, or on the values joined by a space. *)
Definition values_match_re (vs : list str) (r : regex) : bool :=
  existsb (Re.search no_flags r) vs || Re.search no_flags r (join [SPACE] vs).

Definition has_name (names : list str) (e : PageElement) : bool :=
  match e with
  | Tag n _ _ => existsb (str_eqb n) names
  | Str _ _ => false
  end.

(** [attr=True]: the attribute is present. *)
Definition has_attr (key : str) (e : PageElement) : bool :=
  match get e key with Some _ => true | None => false end.

(** [rel='...'] and the like, on a multi-valued attribute. *)
Definition attr_is (key wanted : str) (e : PageElement) : bool :=
  match values e key with
  | Some vs => values_match_str vs wanted
  | None => false
  end.

(** [class_=re.compile(...)] *)
Definition class_matches (r : regex) (e : PageElement) : bool :=
  match e with
  | Tag _ _ _ =>
      match values e (py "class") with
      | Some vs => values_match_re vs r
      | None => false
      end
  | Str _ _ => false
  end.

(** [tag.find_all(...)]: the descendants that satisfy the criteria. *)
Definition find_all (p : PageElement -> bool) (e : PageElement)
  : list PageElement :=
  filter p (descendants e).

(** [tag.find(...)]: the first of them, or [None]. *)
Definition find (p : PageElement -> bool) (e : PageElement)
  : option PageElement :=
  hd_error (find_all p e).

(** The tree after [for x in tag.find_all(...): x.decompose()]: every
    descendant that satisfies the criteria is cut out with all it holds
    (the result list is built before the first [decompose]; a match inside
    an already removed match is gone with it). *)
Fixpoint decompose_all (p : PageElement -> bool) (e : PageElement)
  : PageElement :=
  match e with
  | Tag n a cs =>
      Tag n a ((fix keep (l : list PageElement) : list PageElement :=
                  match l with
                  | [] => []
                  | c :: l' =>
                      if p c then keep l' else decompose_all p c :: keep l'
                  end) cs)
  | Str _ _ => e
  end.

(** The strings [get_text] reads, in document order. *)
Definition string_text (d : PageElement) : list str :=
  match d with
  | Str c t => if is_text_class c then [t] else []
  | Tag _ _ _ => []
  end.

Definition text_strings (e : PageElement) : list str :=
  flat_map string_text (descendants e).

(** [tag.stripped_strings]: each string stripped, the empty ones dropped. *)
Definition stripped_strings (e : PageElement) : list str :=
  filter (fun t => negb (str_eqb t []))
         (map strip (text_strings e)).

(** [tag.get_text()] *)
Definition get_text (e : PageElement) : str :=
  join [] (text_strings e).

(** [tag.get_text(separator=sep, strip=True)] *)
Definition get_text_stripped (sep : str) (e : PageElement) : str :=
  join sep (stripped_strings e).

End Bs4.
Export Bs4.

(* ================================================================== *)
(** ** The record and the patterns *)

(** The dictionary [extract_article_data] returns, one field per key.
    [publication_date] and [canonical_url] can be [None]. *)
Record ArticleRecord := {
  title : str;
  publication_date : option str;
  cleaned_text : str;
  raw_html : str;
  canonical_url : option str;
  word_count : nat;
  content_hash : str
}.

Module Patterns.

Definition ATTRIBUTION : str := py "Stratechery by Ben Thompson".

(** [r'\s*[–-]\s*Stratechery by Ben Thompson\s*$'] *)
Definition TITLE_SUFFIX : regex :=
  Cat (Rep Whitespace 0)
 (Cat (One (CharSet [EN_DASH; HYPHEN]))
 (Cat (Rep Whitespace 0)
 (Cat (lits ATTRIBUTION)
 (Cat (Rep Whitespace 0) Dollar)))).

(** [' – Stratechery by Ben Thompson'] *)
Definition FILENAME_SUFFIX : str := SPACE :: EN_DASH :: SPACE :: ATTRIBUTION.

(** [r'\n{3,}'] *)
Definition NEWLINES : regex := Rep (Lit NEWLINE) 3.

Definition SHARE_THIS : str := py "share this:".

(** [r'(?i)share this:.*$'] with [flags=re.DOTALL] *)
Definition SHARE_FLAGS : flags := {| IGNORECASE := true; DOTALL := true |}.
Definition SHARE_FOOTER : regex :=
  Cat (lits SHARE_THIS) (Cat (Rep AnyChar 0) Dollar).

(** [r'entry-content'] *)
Definition ENTRY_CONTENT : regex := lits (py "entry-content").

(** [r'related|jp-relatedposts'] *)
Definition RELATED : regex :=
  Alt (lits (py "related")) (lits (py "jp-relatedposts")).

(** The two dashes of [TITLE_SUFFIX], and the strings the whole pattern
    matches from their first character on. *)
Definition is_dash (d : char) : Prop := d = EN_DASH \/ d = HYPHEN.

Definition is_attribution_suffix (s : str) : bool :=
  match drop_while isspace s with
  | d :: s1 =>
      ((d =? EN_DASH)%N || (d =? HYPHEN)%N)
      && startswith (drop_while isspace s1) ATTRIBUTION
      && match drop_while isspace
                 (skipn (length ATTRIBUTION) (drop_while isspace s1)) with
         | [] => true
         | _ :: _ => false
         end
  | [] => false
  end.

End Patterns.
Export Patterns.

(* ================================================================== *)
(** ** The store *)

Module Store.

(** A row of the table [stratechery_issues]: the inserted record and the
    identifier the store generated for it. *)
Record Row := { issue_id : nat; fields : ArticleRecord }.

(** The calls the client received, for the order in which the ingestor
    makes them. *)
Inductive Call :=
| SelectByContentHash (h : str)
| SelectByTitle (t : str)
| Insert (r : ArticleRecord).

Record Supabase := {
  rows : list Row;
  next_issue_id : nat;
  calls : list Call
}.

(** What the store does with an insert. *)
Inductive InsertBehaviour :=
| Persists                    (* the row is stored and returned *)
| ReturnsNothing              (* accepted, nothing stored, empty result *)
| InsertRaises (e : Exception).

(** The behaviour of the remote store while one document is processed:
    a lookup either answers or raises. *)
Record Conditions := {
  hash_lookup_error : option Exception;
  title_lookup_error : option Exception;
  insert_behaviour : InsertBehaviour
}.

Definition reliable : Conditions :=
  {| hash_lookup_error := None;
     title_lookup_error := None;
     insert_behaviour := Persists |}.

Definition called (c : Call) (db : Supabase) : Supabase :=
  {| rows := rows db;
     next_issue_id := next_issue_id db;
     calls := calls db ++ [c] |}.

Definition has_content_hash (h : str) (row : Row) : bool :=
  str_eqb (content_hash (fields row)) h.

Definition has_title (t : str) (row : Row) : bool :=
  str_eqb (title (fields row)) t.

Definition stored_hash (h : str) (db : Supabase) : bool :=
  existsb (has_content_hash h) (rows db).

Definition stored_title (t : str) (db : Supabase) : bool :=
  existsb (has_title t) (rows db).

(** Modelled from the spec: the store itself is not in the repository.
    Section 6 gives its contract: (a) a point lookup by exact
    [content_hash] returning zero or one identifying rows. *)
Definition select_by_content_hash (cond : Conditions) (h : str)
    (db : Supabase) : Supabase * Result (list nat) :=
  let db := called (SelectByContentHash h) db in
  match hash_lookup_error cond with
  | Some e => (db, Err e)
  | None =>
      (db, Ok (firstn 1 (map issue_id (filter (has_content_hash h) (rows db)))))
  end.

(** Modelled from the spec: (b) a point lookup by exact [title]. *)
Definition select_by_title (cond : Conditions) (t : str)
    (db : Supabase) : Supabase * Result (list nat) :=
  let db := called (SelectByTitle t) db in
  match title_lookup_error cond with
  | Some e => (db, Err e)
  | None =>
      (db, Ok (firstn 1 (map issue_id (filter (has_title t) (rows db)))))
  end.

(** Modelled from the spec: (c) insert-one returning the persisted row with
    its generated identifier, or an empty result on silent failure; a
    communication error raises and stores nothing. *)
Definition insert (cond : Conditions) (r : ArticleRecord)
    (db : Supabase) : Supabase * Result (list Row) :=
  let db := called (Insert r) db in
  match insert_behaviour cond with
  | Persists =>
      let row := {| issue_id := next_issue_id db; fields := r |} in
      ({| rows := rows db ++ [row];
          next_issue_id := S (next_issue_id db);
          calls := calls db |}, Ok [row])
  | ReturnsNothing => (db, Ok [])
  | InsertRaises e => (db, Err e)
  end.

End Store.
Export Store.

(* ================================================================== *)
(** ** Files, the loop's state, and statements that may raise *)

(** A file the directory listing found: [file_path.name], and what
    [open(file_path, encoding='utf-8').read()] gives for it. *)
Record Document := { name : str; read : Result str }.

(** What the loop changes: the store, the console, the three counters. *)
Record State := {
  supabase : Supabase;
  stdout : list str;
  successful : nat;
  skipped : nat;
  failed : nat
}.

(** [str(e)] *)
Definition Exception_str (e : Exception) : str :=
  match e with
  | UnicodeEncodeError obj start stop =>
      if stop - start =? 1
      then py "'utf-8' codec can't encode character '" ++ [92%N]
           ++ py "u" ++ hex 4 (nth start obj 0%N) ++ py "' in position "
           ++ str_of_nat start ++ py ": surrogates not allowed"
      else py "'utf-8' codec can't encode characters in position "
           ++ str_of_nat start ++ py "-" ++ str_of_nat (stop - 1)
           ++ py ": surrogates not allowed"
  | AttributeError message => message
  | Raised _ message => message
  end.

(** [str(x)] for a value that may be [None]. *)
Definition str_of_optional (x : option str) : str :=
  match x with
  | Some s => s
  | None => py "None"
  end.

(** Statements inside the [try]: they change the state and may raise. *)
Definition Try (A : Type) : Type := State -> State * Result A.

Definition ret {A} (a : A) : Try A := fun st => (st, Ok a).

Definition and_then {A B} (m : Try A) (k : A -> Try B) : Try B :=
  fun st =>
    match m st with
    | (st', Ok a) => k a st'
    | (st', Err e) => (st', Err e)
    end.

Notation "x <- m ;; k" := (and_then m (fun x => k))
  (at level 61, m at next level, right associativity).
Notation "m ;;; k" := (and_then m (fun _ => k))
  (at level 61, right associativity).

Definition lift {A} (r : Result A) : Try A := fun st => (st, r).

Definition on_stdout (line : str) (st : State) : State :=
  {| supabase := supabase st;
     stdout := stdout st ++ [line];
     successful := successful st;
     skipped := skipped st;
     failed := failed st |}.

Definition print (line : str) : Try unit := fun st => (on_stdout line st, Ok tt).

Definition on_supabase {A} (call : Supabase -> Supabase * Result A) : Try A :=
  fun st =>
    let (db, r) := call (supabase st) in
    ({| supabase := db;
        stdout := stdout st;
        successful := successful st;
        skipped := skipped st;
        failed := failed st |}, r).

Definition count_successful (st : State) : State :=
  {| supabase := supabase st; stdout := stdout st;
     successful := S (successful st);
     skipped := skipped st; failed := failed st |}.

Definition count_skipped (st : State) : State :=
  {| supabase := supabase st; stdout := stdout st;
     successful := successful st;
     skipped := S (skipped st); failed := failed st |}.

Definition count_failed (st : State) : State :=
  {| supabase := supabase st; stdout := stdout st;
     successful := successful st;
     skipped := skipped st; failed := S (failed st) |}.

Definition bump (f : State -> State) : Try unit := fun st => (f st, Ok tt).

Definition FAILED_PREFIX : str := SPACE :: SPACE :: BALLOT_X :: py " Failed: ".
Definition INGESTED_PREFIX : str :=
  SPACE :: SPACE :: CHECK_MARK :: py " Ingested! issue_id: ".
Definition SKIPPED_HASH : str := py "  - Skipped: Duplicate content hash".
Definition SKIPPED_TITLE : str := py "  - Skipped: Title already exists".
Definition NO_DATA : str := FAILED_PREFIX ++ py "No data returned".

(* ================================================================== *)
(** ** The specification's wording, for comparison with the code *)

Module Spec.

(** The maximal runs of equal characters of a string. *)
Fixpoint runs (s : str) : list (char * nat) :=
  match s with
  | [] => []
  | c :: s' =>
      match runs s' with
      | (d, n) :: rs =>
          if (c =? d)%N then (d, S n) :: rs else (c, 1) :: (d, n) :: rs
      | [] => [(c, 1)]
      end
  end.

Definition unruns (rs : list (char * nat)) : str :=
  flat_map (fun r => repeat (fst r) (snd r)) rs.

(** Runs are not empty, and neighbours differ. *)
Fixpoint good_runs (rs : list (char * nat)) : Prop :=
  match rs with
  | [] => True
  | (c, n) :: rs' =>
      0 < n /\ match rs' with (d, _) :: _ => c <> d | [] => True end
      /\ good_runs rs'
  end.

Definition not_headed_by (c : char) (t : str) : Prop :=
  match t with d :: _ => c <> d | [] => True end.

(** "collapse 3-or-more consecutive newlines to exactly two" *)
Definition collapse_newlines (s : str) : str :=
  unruns (map (fun r => if (fst r =? NEWLINE)%N && (3 <=? snd r)
                        then (NEWLINE, 2) else r)
              (runs s)).

Fixpoint starts_with_ignoring_case (s marker : str) : bool :=
  match marker, s with
  | [], _ => true
  | m :: marker', c :: s' =>
      existsb (N.eqb c) (case_class m) && starts_with_ignoring_case s' marker'
  | _ :: _, [] => false
  end.

(** "truncate everything from a case-insensitive "share this:" marker
    onward (inclusive) to the end of the text" *)
Fixpoint truncate_at_marker (s : str) : str :=
  if starts_with_ignoring_case s SHARE_THIS then []
  else match s with
       | [] => []
       | c :: s' => c :: truncate_at_marker s'
       end.

(** "Text normalization": the three steps in the order of the text. *)
Definition normalize (s : str) : str :=
  strip (truncate_at_marker (collapse_newlines s)).

(** "strip a known trailing site-attribution suffix (case/dash-insensitive)
    and surrounding whitespace": the suffix pattern of the code, compared
    without regard to case. *)
Definition CASE_INSENSITIVE : flags := {| IGNORECASE := true; DOTALL := false |}.

Definition strip_attribution (s : str) : str :=
  strip (Re.sub CASE_INSENSITIVE TITLE_SUFFIX [] s).

(** "removing a file extension": what precedes the last dot. *)
Fixpoint remove_extension (s : str) : str :=
  match s with
  | [] => []
  | c :: s' =>
      if existsb (N.eqb 46) s' then c :: remove_extension s'
      else if (c =? 46)%N then [] else s
  end.

(** "Title resolution", as the specification words it. *)
Definition resolve_title (soup : PageElement) (label : str) : str :=
  match find (has_name [py "title"]) soup with
  | Some title_tag => strip_attribution (get_text title_tag)
  | None => strip_attribution (remove_extension label)
  end.

End Spec.

(* ================================================================== *)
(** ** Concrete inputs *)

Module Examples.

Definition document (contents : list PageElement) : PageElement :=
  Tag (py "[document]") [] contents.

Definition text (s : str) : PageElement := Str NavigableString s.

Definition ASCII_SPACES : list char := [32; 10; 9; 12; 13]%N.

(** The tree [BeautifulSoup(s, 'html.parser')] builds for an input without
    any [<] or [&]: the whole input is one string under the document node
    (nothing for the empty input; a run of ASCII spaces is kept as one
    newline or one space).  Used for inputs of that kind only. *)
Definition plain_text_soup (s : str) : PageElement :=
  document
    match s with
    | [] => []
    | _ :: _ =>
        if forallb (fun c => existsb (N.eqb c) ASCII_SPACES) s
        then [text (if existsb (N.eqb NEWLINE) s then [NEWLINE] else [SPACE])]
        else [text s]
    end.

(** A date parser that rejects everything, for inputs without a date. *)
Definition no_date (_ : str) : option unit := None.
Definition no_format (_ : unit) : str := [].

(** A string Python accepts and UTF-8 does not: U+D800 alone. *)
Definition LONE_SURROGATE : str := [55296%N].

(** The documents used below, each with the tree the parser builds for
    it. *)
Definition ANTITRUST_TITLE : str :=
  py "Antitrust in 2024 " ++ [EN_DASH] ++ py " Stratechery by Ben Thompson".

Definition ANTITRUST_HTML : str :=
  py "<title>" ++ ANTITRUST_TITLE ++ py "</title>"
  ++ py "<div class=entry-content><p>Regulators moved.</p><nav>Menu</nav></div>".

Definition ANTITRUST_SOUP : PageElement :=
  document
    [Tag (py "title") [] [text ANTITRUST_TITLE];
     Tag (py "div") [(py "class", py "entry-content")]
       [Tag (py "p") [] [text (py "Regulators moved.")];
        Tag (py "nav") [] [text (py "Menu")]]].

Definition LOWER_CASE_HTML : str :=
  py "<title>A - stratechery by ben thompson</title>".

Definition LOWER_CASE_SOUP : PageElement :=
  document [Tag (py "title") [] [text (py "A - stratechery by ben thompson")]].

Definition ASIDE : PageElement :=
  Tag (py "aside") [] [text (py "Related links")].

Definition FOOTER_HTML : str :=
  py "<article><p>Body</p><div>Share this:</div><aside>Related links</aside></article>".

Definition FOOTER_SOUP : PageElement :=
  document
    [Tag (py "article") []
       [Tag (py "p") [] [text (py "Body")];
        Tag (py "div") [] [text (py "Share this:")];
        ASIDE]].

Definition BARE_HTML : str :=
  py "<article><p>Body</p><div>Share this:</div></article>".

Definition BARE_SOUP : PageElement :=
  document
    [Tag (py "article") []
       [Tag (py "p") [] [text (py "Body")];
        Tag (py "div") [] [text (py "Share this:")]]].

(** A numeric character reference to U+D800: the tree builder turns it
    into the character itself. *)
Definition CHARREF_HTML : str := py "&#xD800;".

Definition CHARREF_SOUP : PageElement := document [text LONE_SURROGATE].

Definition html_parser (html : str) : PageElement :=
  if str_eqb html ANTITRUST_HTML then ANTITRUST_SOUP
  else if str_eqb html LOWER_CASE_HTML then LOWER_CASE_SOUP
  else if str_eqb html FOOTER_HTML then FOOTER_SOUP
  else if str_eqb html BARE_HTML then BARE_SOUP
  else if str_eqb html CHARREF_HTML then CHARREF_SOUP
  else plain_text_soup html.

Definition ANTITRUST_FILE : Document :=
  {| name := py "antitrust.html"; read := Ok ANTITRUST_HTML |}.

Definition COPY_FILE : Document :=
  {| name := py "copy.html"; read := Ok ANTITRUST_HTML |}.


(** A plain text with blank lines, a footer and surrounding spaces. *)
Definition MESSY_TEXT : str :=
  py "  One" ++ times NEWLINE 4 ++ py "two  Share This: links ".


(** Two plain-text files whose names give the same title. *)
Definition FIRST_EDITION : Document :=
  {| name := py "A.html"; read := Ok (py "first body") |}.

Definition SECOND_EDITION : Document :=
  {| name := py "A " ++ [EN_DASH] ++ py " Stratechery by Ben Thompson.html";
     read := Ok (py "second body, retitled") |}.

Definition UNDECODABLE : Exception :=
  Raised (py "UnicodeDecodeError")
         (py "'utf-8' codec can't decode byte 0xff in position 0: invalid start byte").

Definition UNREADABLE_FILE : Document :=
  {| name := py "binary.html"; read := Err UNDECODABLE |}.

Definition EMPTY_STORE : Supabase :=
  {| rows := []; next_issue_id := 1; calls := [] |}.






Definition DIRECTORY : str := py "new_articles".

End Examples.
Export Examples.

(* ================================================================== *)
(** ** The program *)

Section Program.

(** [BeautifulSoup(html_content, 'html.parser')]: the document node. *)
Variable BeautifulSoup : str -> PageElement.

(** [datetime.fromisoformat] ([None] stands for its [ValueError]) and
    [datetime.isoformat]. *)
Variable datetime : Type.
Variable fromisoformat : str -> option datetime.
Variable isoformat : datetime -> str.

(** *** [extract_article_data] *)

(** Lines 24-33. *)
Definition extract_title (soup : PageElement) (filename : str) : str :=
  match find (has_name [py "title"]) soup with
  | Some title_tag =>
      let title := get_text title_tag in
      let title := Re.sub no_flags TITLE_SUFFIX [] title in
      strip title
  | None =>
      replace (replace filename (py ".html") []) FILENAME_SUFFIX []
  end.

(** Lines 35-44; the [try] turns the parser's [ValueError] into [None].
    [time_tag.get('datetime')] is [None] only if the attribute is absent,
    and then [.replace] raises [AttributeError], which is not caught. *)
Definition extract_pub_date (soup : PageElement) : Result (option datetime) :=
  match find (fun e => has_name [py "time"] e && has_attr (py "datetime") e)
             soup with
  | Some time_tag =>
      match get time_tag (py "datetime") with
      | Some datetime_str =>
          Ok (fromisoformat (replace datetime_str (py "Z") (py "+00:00")))
      | None =>
          Err (AttributeError
                 (py "'NoneType' object has no attribute 'replace'"))
      end
  | None => Ok None
  end.

(** Lines 46-48: [''] without a canonical link, its [href] (possibly
    [None]) with one. *)
Definition extract_canonical_url (soup : PageElement) : option str :=
  match find (fun e => has_name [py "link"] e
                       && attr_is (py "rel") (py "canonical") e) soup with
  | Some canonical => get canonical (py "href")
  | None => Some []
  end.

Definition UNWANTED : list str := [py "script"; py "style"; py "nav"; py "aside"].

(** Lines 50-70: the text of the body, before it is cleaned up. *)
Definition extract_body (soup : PageElement) : str :=
  match find (fun e => has_name [py "div"] e && class_matches ENTRY_CONTENT e)
             soup with
  | Some content_div =>
      let content_div := decompose_all (has_name UNWANTED) content_div in
      let content_div := decompose_all (class_matches RELATED) content_div in
      get_text_stripped [NEWLINE] content_div
  | None =>
      match find (has_name [py "article"]) soup with
      | Some article => get_text_stripped [NEWLINE] article
      | None => get_text_stripped [NEWLINE] soup
      end
  end.

(** Lines 72-77. *)
Definition clean_up (clean_text : str) : str :=
  let clean_text := Re.sub no_flags NEWLINES [NEWLINE; NEWLINE] clean_text in
  let clean_text := Re.sub SHARE_FLAGS SHARE_FOOTER [] clean_text in
  strip clean_text.

Definition extract_article_data (html_content filename : str)
  : Result ArticleRecord :=
  let soup := BeautifulSoup html_content in
  let title := extract_title soup filename in
  bind (extract_pub_date soup) (fun pub_date =>
  let canonical_url := extract_canonical_url soup in
  let clean_text := clean_up (extract_body soup) in
  bind (encode_utf8 clean_text) (fun utf8 =>
  let content_hash := sha256_hexdigest utf8 in
  Ok {| title := title;
        publication_date := option_map isoformat pub_date;
        cleaned_text := clean_text;
        raw_html := html_content;
        canonical_url := canonical_url;
        word_count := length (split clean_text);
        content_hash := content_hash |})).

(** *** [ingest_html_files] *)

(** Lines 110-160: the statements of the [try] block for one file. *)
Definition try_block (cond : Conditions) (file_path : Document) : Try unit :=
  html_content <- lift (read file_path) ;;
  data <- lift (extract_article_data html_content (name file_path)) ;;
  print (py "  Title: " ++ slice_to 50 (title data) ++ py "...") ;;;
  print (py "  Date: " ++ str_of_optional (publication_date data)) ;;;
  print (py "  Words: " ++ str_of_nat (word_count data)) ;;;
  existing <- on_supabase (select_by_content_hash cond (content_hash data)) ;;
  match existing with
  | _ :: _ => print SKIPPED_HASH ;;; bump count_skipped
  | [] =>
      existing_title <- on_supabase (select_by_title cond (title data)) ;;
      match existing_title with
      | _ :: _ => print SKIPPED_TITLE ;;; bump count_skipped
      | [] =>
          response <- on_supabase (insert cond data) ;;
          match response with
          | row :: _ =>
              print (INGESTED_PREFIX ++ str_of_nat (issue_id row)) ;;;
              bump count_successful
          | [] => print NO_DATA ;;; bump count_failed
          end
      end
  end.

(** Line 107: the progress header of a file. *)
Definition header (total i : nat) (file_path : Document) : str :=
  NEWLINE :: py "[" ++ str_of_nat i ++ py "/" ++ str_of_nat total ++ py "] "
  ++ slice_to 60 (name file_path) ++ py "...".

(** Lines 162-164: the handler of [except Exception as e]. *)
Definition caught (e : Exception) (st : State) : State :=
  count_failed (on_stdout (FAILED_PREFIX ++ Exception_str e) st).

(** Lines 107-164: one iteration; [i] counts from 1. *)
Definition iteration (total i : nat) (cond : Conditions)
    (file_path : Document) (st : State) : State :=
  let st := on_stdout (header total i file_path) st in
  match try_block cond file_path st with
  | (st, Ok _) => st
  | (st, Err e) => caught e st
  end.

(** The [for] loop over [enumerate(html_files, 1)]; [conditions i] is how
    the store behaves during iteration [i]. *)
Fixpoint loop (conditions : nat -> Conditions) (total i : nat)
    (html_files : list Document) (st : State) : State :=
  match html_files with
  | [] => st
  | file_path :: rest =>
      loop conditions total (S i) rest
           (iteration total i (conditions i) file_path st)
  end.

Definition summary (total : nat) (st : State) : list str :=
  [NEWLINE :: times 61%N 60; py "SUMMARY"; times 61%N 60;
   py "Total:      " ++ str_of_nat total;
   py "Successful: " ++ str_of_nat (successful st);
   py "Skipped:    " ++ str_of_nat (skipped st);
   py "Failed:     " ++ str_of_nat (failed st)].

(** Lines 95-104: the state before the loop. *)
Definition start (directory : str) (total : nat) (client : Supabase) : State :=
  {| supabase := client;
     stdout := [py "Found " ++ str_of_nat total
                ++ py " HTML files in " ++ directory;
                times 45%N 60];
     successful := 0; skipped := 0; failed := 0 |}.

(** [ingest_html_files(directory)], where [html_files] is the sorted
    listing of the directory and [client] what [get_supabase_client()]
    connects to.  The second component is the value returned. *)
Definition ingest_html_files (directory : str) (html_files : list Document)
    (conditions : nat -> Conditions) (client : Supabase) : State * nat :=
  let total := length html_files in
  let st := start directory total client in
  let st := loop conditions total 1 html_files st in
  let st := {| supabase := supabase st;
               stdout := stdout st ++ summary total st;
               successful := successful st;
               skipped := skipped st;
               failed := failed st |} in
  (st, successful st).

(** *** The iteration as a relation between states

    The states an iteration passes through, named after what happened. *)

(** After lines 116-118. *)
Definition described (data : ArticleRecord) (st : State) : State :=
  on_stdout (py "  Words: " ++ str_of_nat (word_count data))
    (on_stdout (py "  Date: " ++ str_of_optional (publication_date data))
       (on_stdout (py "  Title: " ++ slice_to 50 (title data) ++ py "...") st)).

(** After a call to the store that changed no row. *)
Definition asked (c : Call) (st : State) : State :=
  {| supabase := called c (supabase st);
     stdout := stdout st;
     successful := successful st;
     skipped := skipped st;
     failed := failed st |}.

(** After an insert that stored [data]. *)
Definition persisted (data : ArticleRecord) (st : State) : State :=
  {| supabase :=
       {| rows := rows (supabase st)
                  ++ [{| issue_id := next_issue_id (supabase st);
                         fields := data |}];
          next_issue_id := S (next_issue_id (supabase st));
          calls := calls (supabase st) ++ [Insert data] |};
     stdout := stdout st;
     successful := successful st;
     skipped := skipped st;
     failed := failed st |}.

(** One constructor per path through lines 107-164. *)
Inductive Iteration (total i : nat) (cond : Conditions)
    (file_path : Document) (st : State) : State -> Prop :=
| unreadable_file e :
    read file_path = Err e ->
    Iteration total i cond file_path st
      (caught e (on_stdout (header total i file_path) st))
| extraction_raises html_content e :
    read file_path = Ok html_content ->
    extract_article_data html_content (name file_path) = Err e ->
    Iteration total i cond file_path st
      (caught e (on_stdout (header total i file_path) st))
| hash_lookup_raises html_content data e :
    read file_path = Ok html_content ->
    extract_article_data html_content (name file_path) = Ok data ->
    hash_lookup_error cond = Some e ->
    Iteration total i cond file_path st
      (caught e
         (asked (SelectByContentHash (content_hash data))
            (described data (on_stdout (header total i file_path) st))))
| duplicate_content_hash html_content data :
    read file_path = Ok html_content ->
    extract_article_data html_content (name file_path) = Ok data ->
    hash_lookup_error cond = None ->
    stored_hash (content_hash data) (supabase st) = true ->
    Iteration total i cond file_path st
      (count_skipped
         (on_stdout SKIPPED_HASH
            (asked (SelectByContentHash (content_hash data))
               (described data (on_stdout (header total i file_path) st)))))
| title_lookup_raises html_content data e :
    read file_path = Ok html_content ->
    extract_article_data html_content (name file_path) = Ok data ->
    hash_lookup_error cond = None ->
    stored_hash (content_hash data) (supabase st) = false ->
    title_lookup_error cond = Some e ->
    Iteration total i cond file_path st
      (caught e
         (asked (SelectByTitle (title data))
            (asked (SelectByContentHash (content_hash data))
               (described data (on_stdout (header total i file_path) st)))))
| duplicate_title html_content data :
    read file_path = Ok html_content ->
    extract_article_data html_content (name file_path) = Ok data ->
    hash_lookup_error cond = None ->
    stored_hash (content_hash data) (supabase st) = false ->
    title_lookup_error cond = None ->
    stored_title (title data) (supabase st) = true ->
    Iteration total i cond file_path st
      (count_skipped
         (on_stdout SKIPPED_TITLE
            (asked (SelectByTitle (title data))
               (asked (SelectByContentHash (content_hash data))
                  (described data (on_stdout (header total i file_path) st))))))
| insert_raises html_content data e :
    read file_path = Ok html_content ->
    extract_article_data html_content (name file_path) = Ok data ->
    hash_lookup_error cond = None ->
    stored_hash (content_hash data) (supabase st) = false ->
    title_lookup_error cond = None ->
    stored_title (title data) (supabase st) = false ->
    insert_behaviour cond = InsertRaises e ->
    Iteration total i cond file_path st
      (caught e
         (asked (Insert data)
            (asked (SelectByTitle (title data))
               (asked (SelectByContentHash (content_hash data))
                  (described data (on_stdout (header total i file_path) st))))))
| no_data_returned html_content data :
    read file_path = Ok html_content ->
    extract_article_data html_content (name file_path) = Ok data ->
    hash_lookup_error cond = None ->
    stored_hash (content_hash data) (supabase st) = false ->
    title_lookup_error cond = None ->
    stored_title (title data) (supabase st) = false ->
    insert_behaviour cond = ReturnsNothing ->
    Iteration total i cond file_path st
      (count_failed
         (on_stdout NO_DATA
            (asked (Insert data)
               (asked (SelectByTitle (title data))
                  (asked (SelectByContentHash (content_hash data))
                     (described data
                        (on_stdout (header total i file_path) st)))))))
| ingested html_content data :
    read file_path = Ok html_content ->
    extract_article_data html_content (name file_path) = Ok data ->
    hash_lookup_error cond = None ->
    stored_hash (content_hash data) (supabase st) = false ->
    title_lookup_error cond = None ->
    stored_title (title data) (supabase st) = false ->
    insert_behaviour cond = Persists ->
    Iteration total i cond file_path st
      (count_successful
         (on_stdout
            (INGESTED_PREFIX ++ str_of_nat (next_issue_id (supabase st)))
            (persisted data
               (asked (SelectByTitle (title data))
                  (asked (SelectByContentHash (content_hash data))
                     (described data
                        (on_stdout (header total i file_path) st))))))).






(** *** Notions the further properties speak of *)

(** The keys of the rows of the table, and a table that holds no content
    hash and no title twice. *)
Definition stored_hashes (db : Supabase) : list str :=
  map (fun row => content_hash (fields row)) (rows db).

Definition stored_titles (db : Supabase) : list str :=
  map (fun row => title (fields row)) (rows db).

Definition unique_keys (db : Supabase) : Prop :=
  NoDup (stored_hashes db) /\ NoDup (stored_titles db).




(** A pattern whose match at a position is decided by [P] on the text
    from there on, and stays a match when the text is extended. *)
Definition starts (fl : flags) (r : regex) (P : str -> bool) : Prop :=
  (forall s, match_at fl r s <> None <-> P s = true)
  /\ (forall a b, P a = true -> P (a ++ b) = true).

Definition newline_run (s : str) : bool :=
  3 <=? run_length (fun c => (c =? NEWLINE)%N) s.

Definition share_marker (s : str) : bool :=
  Spec.starts_with_ignoring_case s SHARE_THIS.

(** [old] begins in the text before [t] and ends in [t]: a proper suffix
    of [old] is a prefix of [t]. *)
Definition straddles (old t : str) : bool :=
  existsb (fun k => startswith t (skipn k old)) (seq 1 (length old - 1)).

(** The characters [split] keeps. *)
Definition visible (c : char) : bool := negb (isspace c).


(* ================================================================== *)
(** * Properties *)

(** ** Test vectors *)

(** FIPS 180-4 examples: the empty message, "abc", and the 56-byte
    message that needs a second block. *)
Example sha256_of_empty_message :
  sha256_hexdigest []
  = py "e3b0c44298fc1c149afbf4c8996fb92427ae41e4649b934ca495991b7852b855".
Proof. vm_compute. reflexivity. Qed.

Example sha256_of_abc :
  sha256_hexdigest [97; 98; 99]%N
  = py "ba7816bf8f01cfea414140de5dae2223b00361a396177a9cb410ff61f20015ad".
Proof. vm_compute. reflexivity. Qed.

Example sha256_of_two_blocks :
  option_map sha256_hexdigest
    (match encode_utf8
             (py "abcdbcdecdefdefgefghfghighijhijkijkljklmklmnlmnomnopnopq")
     with Ok utf8 => Some utf8 | Err _ => None end)
  = Some (py "248d6a61d20638b8e5c026930c3e6039a33ce45964ff2167f6ecedd419db06c1").
Proof. vm_compute. reflexivity. Qed.

(** One code point of each UTF-8 length, and a lone surrogate. *)
Example encode_utf8_lengths :
  encode_utf8 [65; 233; EN_DASH; 128512]%N
  = Ok [65; 195; 169; 226; 128; 147; 240; 159; 152; 128]%N.
Proof. vm_compute. reflexivity. Qed.

Example encode_utf8_surrogate :
  encode_utf8 (py "ab" ++ [56320; 56321]%N ++ py "c")
  = Err (UnicodeEncodeError (py "ab" ++ [56320; 56321]%N ++ py "c") 2 4).
Proof. vm_compute. reflexivity. Qed.

(** The patterns on small inputs. *)
Example sub_NEWLINES_example :
  Re.sub no_flags NEWLINES [NEWLINE; NEWLINE]
         (py "a" ++ times NEWLINE 2 ++ py "b" ++ times NEWLINE 5 ++ py "c")
  = py "a" ++ times NEWLINE 2 ++ py "b" ++ times NEWLINE 2 ++ py "c".
Proof. vm_compute. reflexivity. Qed.

Example sub_SHARE_FOOTER_example :
  Re.sub SHARE_FLAGS SHARE_FOOTER []
         (py "Body. SHARE THIS: x" ++ [NEWLINE] ++ py "share this: y")
  = py "Body. ".
Proof. vm_compute. reflexivity. Qed.

Example sub_TITLE_SUFFIX_example :
  Re.sub no_flags TITLE_SUFFIX [] (py "A - B  -  Stratechery by Ben Thompson ")
  = py "A - B".
Proof. vm_compute. reflexivity. Qed.

Example split_example :
  split (py "  two" ++ [NEWLINE; 9%N] ++ py "words ") = [py "two"; py "words"].
Proof. vm_compute. reflexivity. Qed.

(** ** Strings and patterns *)

Lemma rep_k_Some (p : char -> bool) (s : str) :
  forall n, rep_k p n s (fun rest => Some rest)
            = if n <=? run_length p s then Some (drop_while p s) else None.
Proof.
  induction s as [|c s IH]; intros n; simpl.
  - destruct n; reflexivity.
  - destruct (p c) eqn:Hp.
    + rewrite IH. destruct n as [|n]; simpl; [reflexivity|].
      destruct (n <=? run_length p s); reflexivity.
    + destruct n; reflexivity.
Qed.

Lemma sub_from_skip fl r repl (a t : str) :
  sub_from fl r repl (length a) (a ++ t) = sub_from fl r repl 0 t.
Proof.
  induction a as [|c a IH]; simpl; [reflexivity|]. exact IH.
Qed.

Lemma runs_good s : Spec.good_runs (Spec.runs s).
Proof.
  induction s as [|c s IH]; simpl; [exact I|].
  destruct (Spec.runs s) as [|[d n] rs] eqn:E; simpl.
  - split; [lia | split; exact I].
  - destruct (N.eqb_spec c d) as [->|Hne]; simpl in *.
    + destruct IH as (Hn & Hd & Hg). split; [lia | split; assumption].
    + split; [lia | split; assumption].
Qed.

Lemma unruns_runs s : Spec.unruns (Spec.runs s) = s.
Proof.
  induction s as [|c s IH]; simpl; [reflexivity|].
  destruct (Spec.runs s) as [|[d n] rs] eqn:E; simpl in *.
  - now rewrite <- IH.
  - destruct (N.eqb_spec c d) as [->|Hne]; unfold Spec.unruns in *; simpl in *;
      now rewrite <- IH.
Qed.

Lemma match_at_NEWLINES s :
  match_at no_flags NEWLINES s
  = if 3 <=? run_length (fun c => (c =? NEWLINE)%N) s
    then Some (drop_while (fun c => (c =? NEWLINE)%N) s) else None.
Proof.
  unfold match_at, NEWLINES. simpl match_k.
  apply (rep_k_Some (item_match no_flags (Lit NEWLINE)) s 3).
Qed.

Lemma run_length_repeat c n t :
  Spec.not_headed_by c t ->
  run_length (fun x => (x =? c)%N) (repeat c n ++ t) = n.
Proof.
  intros H. induction n as [|n IH]; simpl.
  - destruct t as [|d t]; simpl; [reflexivity|].
    simpl in H. destruct (N.eqb_spec d c); [congruence|reflexivity].
  - rewrite N.eqb_refl. now rewrite IH.
Qed.

Lemma drop_while_repeat c n t :
  Spec.not_headed_by c t ->
  drop_while (fun x => (x =? c)%N) (repeat c n ++ t) = t.
Proof.
  intros H. induction n as [|n IH]; simpl.
  - destruct t as [|d t]; simpl; [reflexivity|].
    simpl in H. destruct (N.eqb_spec d c); [congruence|reflexivity].
  - rewrite N.eqb_refl. exact IH.
Qed.

Lemma run_length_other c d s :
  c <> d -> run_length (fun x => (x =? d)%N) (c :: s) = 0.
Proof. intros H. simpl. destruct (N.eqb_spec c d); [congruence|reflexivity]. Qed.

Lemma sub_NEWLINES_run c n t :
  Spec.not_headed_by c t ->
  sub_from no_flags NEWLINES [NEWLINE; NEWLINE] 0 (repeat c n ++ t)
  = (if (c =? NEWLINE)%N && (3 <=? n) then [NEWLINE; NEWLINE] else repeat c n)
    ++ sub_from no_flags NEWLINES [NEWLINE; NEWLINE] 0 t.
Proof.
  intros Ht. destruct (N.eqb_spec c NEWLINE) as [->|Hc]; cbn [andb].
  - destruct (3 <=? n) eqn:Hn.
    + apply Nat.leb_le in Hn. destruct n as [|[|[|m]]]; try lia.
      set (n := S (S m)).
      cbn [repeat app]. cbn [sub_from]. rewrite match_at_NEWLINES.
      change (NEWLINE :: repeat NEWLINE n ++ t) with (repeat NEWLINE (S n) ++ t).
      rewrite run_length_repeat, drop_while_repeat by assumption.
      change (3 <=? S n) with true. cbv iota.
      cbn [repeat app length].
      rewrite length_app, repeat_length.
      replace (S (n + length t) - length t) with (S n) by lia.
      rewrite <- (repeat_length NEWLINE n) at 1.
      rewrite sub_from_skip. reflexivity.
    + apply Nat.leb_gt in Hn.
      assert (Hstep : forall m, m < 3 ->
        sub_from no_flags NEWLINES [NEWLINE; NEWLINE] 0 (repeat NEWLINE m ++ t)
        = repeat NEWLINE m ++ sub_from no_flags NEWLINES [NEWLINE; NEWLINE] 0 t).
      { induction m as [|m IHm]; intros Hm; [reflexivity|].
        cbn [repeat app]. cbn [sub_from]. rewrite match_at_NEWLINES.
        change (NEWLINE :: repeat NEWLINE m ++ t) with (repeat NEWLINE (S m) ++ t).
        rewrite run_length_repeat by assumption.
        destruct (3 <=? S m) eqn:E; [apply Nat.leb_le in E; lia|].
        cbn [repeat app]. rewrite IHm by lia. reflexivity. }
      apply Hstep, Hn.
  - induction n as [|n IH]; [reflexivity|].
    cbn [repeat app]. cbn [sub_from]. rewrite match_at_NEWLINES.
    rewrite run_length_other by assumption. cbn [Nat.leb].
    rewrite IH. reflexivity.
Qed.

Lemma unruns_cons c n rs : Spec.unruns ((c, n) :: rs) = repeat c n ++ Spec.unruns rs.
Proof. reflexivity. Qed.

Lemma unruns_headed c rs :
  match rs with (d, _) :: _ => c <> d | [] => True end ->
  Spec.good_runs rs -> Spec.not_headed_by c (Spec.unruns rs).
Proof.
  destruct rs as [|[d n] rs]; simpl; [auto|].
  intros Hc (Hn & _ & _). destruct n; [lia|]. exact Hc.
Qed.

Lemma sub_NEWLINES_runs rs :
  Spec.good_runs rs ->
  sub_from no_flags NEWLINES [NEWLINE; NEWLINE] 0 (Spec.unruns rs)
  = Spec.unruns (map (fun r => if (fst r =? NEWLINE)%N && (3 <=? snd r)
                          then (NEWLINE, 2) else r) rs).
Proof.
  induction rs as [|[c n] rs IH]; intros Hg.
  - reflexivity.
  - destruct Hg as (Hn & Hd & Hg). rewrite unruns_cons.
    rewrite sub_NEWLINES_run by (apply unruns_headed; assumption).
    rewrite IH by assumption. cbn [map fst snd].
    destruct ((c =? NEWLINE)%N && (3 <=? n)); reflexivity.
Qed.

Lemma sub_NEWLINES_collapse s :
  Re.sub no_flags NEWLINES [NEWLINE; NEWLINE] s = Spec.collapse_newlines s.
Proof.
  unfold Re.sub, Spec.collapse_newlines.
  rewrite <- (unruns_runs s) at 1. apply sub_NEWLINES_runs, runs_good.
Qed.

Lemma sub_from_all fl r (s : str) : sub_from fl r [] (length s) s = [].
Proof.
  rewrite <- (app_nil_r s) at 2. rewrite sub_from_skip. simpl.
  destruct (match_at fl r []); reflexivity.
Qed.

Lemma sub_cut_where fl r (P : str -> bool) :
  (forall s, match_at fl r s = if P s then Some [] else None) ->
  forall s, Re.sub fl r [] s = cut_where P s.
Proof.
  intros H s. unfold Re.sub. induction s as [|c s IH].
  - simpl. rewrite H. destruct (P []); reflexivity.
  - cbn [sub_from cut_where]. rewrite H. destruct (P (c :: s)).
    + cbn [length Nat.sub app]. apply sub_from_all.
    + now rewrite IH.
Qed.

Lemma match_k_lits_ci {A} fl (w s : str) (k : str -> option A) :
  IGNORECASE fl = true ->
  match_k fl (lits w) s k
  = if Spec.starts_with_ignoring_case s w then k (skipn (length w) s) else None.
Proof.
  intros Hfl. revert s. induction w as [|m w IH]; intros s.
  - destruct s; reflexivity.
  - destruct s as [|c s]; [reflexivity|].
    cbn [lits match_k item_match Spec.starts_with_ignoring_case length skipn].
    unfold lit_match. rewrite Hfl.
    destruct (existsb (N.eqb c) (case_class m)); cbn [andb];
      [apply IH|reflexivity].
Qed.

Lemma match_k_lits {A} (w s : str) (k : str -> option A) :
  match_k no_flags (lits w) s k
  = if startswith s w then k (skipn (length w) s) else None.
Proof.
  revert s. induction w as [|m w IH]; intros s.
  - destruct s; reflexivity.
  - destruct s as [|c s]; [reflexivity|].
    cbn [lits match_k item_match startswith length skipn].
    unfold lit_match. cbn [IGNORECASE no_flags].
    destruct (c =? m)%N; cbn [andb]; [apply IH|reflexivity].
Qed.

Lemma rep_k_all_dollar fl (p : char -> bool) (s : str) :
  (forall c, p c = true) ->
  rep_k p 0 s (fun s2 => match_k fl Dollar s2 (fun rest => Some rest)) = Some [].
Proof.
  intros Hp. induction s as [|c s IH]; simpl; [reflexivity|].
  rewrite Hp. fold (@rep_k str). simpl in IH. rewrite IH. reflexivity.
Qed.

Lemma match_at_SHARE_FOOTER s :
  match_at SHARE_FLAGS SHARE_FOOTER s
  = if Spec.starts_with_ignoring_case s SHARE_THIS then Some [] else None.
Proof.
  unfold match_at, SHARE_FOOTER. cbn [match_k].
  rewrite match_k_lits_ci by reflexivity.
  destruct (Spec.starts_with_ignoring_case s SHARE_THIS); [|reflexivity].
  apply (rep_k_all_dollar SHARE_FLAGS). reflexivity.
Qed.

Lemma truncate_at_marker_cut s :
  Spec.truncate_at_marker s
  = cut_where (fun s => Spec.starts_with_ignoring_case s SHARE_THIS) s.
Proof.
  induction s as [|c s IH]; [reflexivity|].
  cbn [Spec.truncate_at_marker cut_where]. now rewrite IH.
Qed.

Lemma sub_SHARE_truncate s :
  Re.sub SHARE_FLAGS SHARE_FOOTER [] s = Spec.truncate_at_marker s.
Proof.
  rewrite truncate_at_marker_cut. apply sub_cut_where, match_at_SHARE_FOOTER.
Qed.

Lemma clean_up_normalize s : clean_up s = Spec.normalize s.
Proof.
  unfold clean_up, Spec.normalize.
  now rewrite sub_NEWLINES_collapse, sub_SHARE_truncate.
Qed.

Lemma rep_k_skip {A} (p : char -> bool) (k : str -> option A) (s : str) :
  (forall c t, p c = true -> k (c :: t) = None) ->
  rep_k p 0 s k = k (drop_while p s).
Proof.
  intros Hk. induction s as [|c s IH]; [reflexivity|].
  cbn [rep_k drop_while Nat.pred]. destruct (p c) eqn:Hp; [|reflexivity].
  rewrite IH. destruct (k (drop_while p s)) eqn:E; [reflexivity|].
  now apply Hk.
Qed.

Lemma isspace_NEWLINE : isspace NEWLINE = true.
Proof. reflexivity. Qed.

Lemma rep_k_space_dollar fl (s : str) :
  rep_k isspace 0 s (fun s2 => match_k fl Dollar s2 (fun rest => Some rest))
  = match drop_while isspace s with [] => Some [] | _ :: _ => None end.
Proof.
  induction s as [|c s IH]; [reflexivity|].
  cbn [rep_k drop_while Nat.pred]. destruct (isspace c) eqn:Hc.
  - rewrite IH. destruct (drop_while isspace s) eqn:E; [reflexivity|].
    destruct s as [|d s]; [discriminate|]. reflexivity.
  - cbn [match_k]. destruct s as [|d s]; [|reflexivity].
    destruct (N.eqb_spec c NEWLINE) as [->|]; [discriminate|reflexivity].
Qed.

Lemma match_at_TITLE_SUFFIX s :
  match_at no_flags TITLE_SUFFIX s
  = if is_attribution_suffix s then Some [] else None.
Proof.
  unfold match_at, TITLE_SUFFIX, is_attribution_suffix.
  cbn [match_k]. change (item_match no_flags Whitespace) with isspace.
  rewrite rep_k_skip.
  2:{ intros c t Hc. destruct (item_match no_flags (CharSet [EN_DASH; HYPHEN]) c) eqn:E;
        [|reflexivity].
      exfalso. cbn in E. rewrite orb_false_r in E.
      apply orb_prop in E. destruct E as [E|E]; apply N.eqb_eq in E; subst c;
        discriminate. }
  destruct (drop_while isspace s) as [|d s1]; [reflexivity|].
  replace (item_match no_flags (CharSet [EN_DASH; HYPHEN]) d)
    with ((d =? EN_DASH)%N || (d =? HYPHEN)%N)
    by (cbn; now rewrite orb_false_r).
  destruct ((d =? EN_DASH)%N || (d =? HYPHEN)%N); [|reflexivity].
  cbn [andb].
  rewrite rep_k_skip.
  2:{ intros c t Hc. rewrite match_k_lits. 
      destruct (startswith (c :: t) ATTRIBUTION) eqn:E; [|reflexivity].
      exfalso. cbn in E. apply andb_prop in E. destruct E as [E _].
      apply N.eqb_eq in E. subst c. discriminate. }
  rewrite match_k_lits.
  destruct (startswith (drop_while isspace s1) ATTRIBUTION); [|reflexivity].
  cbn [andb]. rewrite (rep_k_space_dollar no_flags).
  destruct (drop_while isspace (skipn (length ATTRIBUTION) (drop_while isspace s1)));
    reflexivity.
Qed.

Lemma sub_TITLE_SUFFIX_cut s :
  Re.sub no_flags TITLE_SUFFIX [] s = cut_where is_attribution_suffix s.
Proof. apply sub_cut_where, match_at_TITLE_SUFFIX. Qed.

Lemma drop_while_app_all p (w t : str) :
  forallb p w = true -> drop_while p (w ++ t) = drop_while p t.
Proof.
  induction w as [|c w IH]; simpl; [reflexivity|].
  intros H. apply andb_prop in H. destruct H as [Hc Hw].
  rewrite Hc. auto.
Qed.

Lemma drop_while_all p (w : str) : forallb p w = true -> drop_while p w = [].
Proof.
  intros H. rewrite <- (app_nil_r w). now rewrite drop_while_app_all.
Qed.

Lemma drop_while_split p (s : str) :
  exists w, s = w ++ drop_while p s /\ forallb p w = true.
Proof.
  induction s as [|c s (w & Hs & Hw)]; simpl.
  - now exists [].
  - destruct (p c) eqn:Hc.
    + exists (c :: w). simpl. rewrite Hc, Hw. split; [now f_equal|reflexivity].
    + now exists [].
Qed.

Lemma drop_while_nil_all p (s : str) : drop_while p s = [] -> forallb p s = true.
Proof.
  intros H. destruct (drop_while_split p s) as (w & Hs & Hw).
  rewrite H, app_nil_r in Hs. now subst.
Qed.

Lemma startswith_app (w t : str) : startswith (w ++ t) w = true.
Proof.
  induction w as [|c w IH]; simpl.
  - destruct t; reflexivity.
  - now rewrite N.eqb_refl.
Qed.

Lemma startswith_split (s w : str) :
  startswith s w = true -> s = w ++ skipn (length w) s.
Proof.
  revert s. induction w as [|c w IH]; intros s H.
  - reflexivity.
  - destruct s as [|d s]; [discriminate|]. cbn in H.
    apply andb_prop in H. destruct H as [Hd Hs].
    apply N.eqb_eq in Hd. subst d. cbn. f_equal. now apply IH.
Qed.

Lemma skipn_app_exact (w t : str) : skipn (length w) (w ++ t) = t.
Proof. induction w; simpl; auto. Qed.

Lemma dash_not_space d : is_dash d -> isspace d = false.
Proof. intros [->| ->]; reflexivity. Qed.

Lemma dash_test d : is_dash d <-> ((d =? EN_DASH)%N || (d =? HYPHEN)%N) = true.
Proof.
  unfold is_dash. rewrite orb_true_iff, !N.eqb_eq. tauto.
Qed.

(** The suffix test holds exactly for the strings of the suffix's shape. *)
Lemma is_attribution_suffix_intro (w1 w2 w3 : str) d :
  all_space w1 -> is_dash d -> all_space w2 -> all_space w3 ->
  is_attribution_suffix (w1 ++ [d] ++ w2 ++ ATTRIBUTION ++ w3) = true.
Proof.
  intros H1 Hd H2 H3. unfold is_attribution_suffix.
  rewrite drop_while_app_all by exact H1.
  cbn [app drop_while]. rewrite (dash_not_space Hd).
  apply dash_test in Hd. rewrite Hd. cbn [andb].
  rewrite drop_while_app_all by exact H2.
  change (drop_while isspace (ATTRIBUTION ++ w3)) with (ATTRIBUTION ++ w3).
  rewrite startswith_app, skipn_app_exact. cbn [andb].
  now rewrite drop_while_all.
Qed.

Lemma is_attribution_suffix_elim (t : str) :
  is_attribution_suffix t = true ->
  exists w1 d w2 w3,
    t = w1 ++ [d] ++ w2 ++ ATTRIBUTION ++ w3
    /\ all_space w1 /\ is_dash d /\ all_space w2 /\ all_space w3.
Proof.
  unfold is_attribution_suffix. intros H.
  destruct (drop_while_split isspace t) as (w1 & Ht & Hw1).
  destruct (drop_while isspace t) as [|d s1]; [discriminate|].
  apply andb_prop in H. destruct H as [H H3].
  apply andb_prop in H. destruct H as [Hd Hstart].
  destruct (drop_while_split isspace s1) as (w2 & Hs1 & Hw2).
  apply startswith_split in Hstart.
  set (s2 := drop_while isspace s1) in *.
  set (w3 := skipn (length ATTRIBUTION) s2) in *.
  exists w1, d, w2, w3. repeat split; try assumption.
  - rewrite Ht. cbn [app]. do 2 f_equal. rewrite Hs1. now f_equal.
  - now apply dash_test.
  - apply drop_while_nil_all. destruct (drop_while isspace w3); [reflexivity|discriminate].
Qed.

Lemma nonspace_app a b : nonspace (a ++ b) = nonspace a + nonspace b.
Proof. unfold nonspace. now rewrite filter_app, length_app. Qed.

Lemma nonspace_all_space w : all_space w -> nonspace w = 0.
Proof.
  unfold all_space, nonspace. induction w as [|c w IH]; simpl; [reflexivity|].
  intros H. apply andb_prop in H. destruct H as [Hc Hw]. rewrite Hc. simpl. auto.
Qed.

Lemma nonspace_zero w : nonspace w = 0 -> all_space w.
Proof.
  unfold all_space, nonspace. induction w as [|c w IH]; simpl; [reflexivity|].
  destruct (isspace c); simpl; [auto|discriminate].
Qed.

Lemma nonspace_suffix t : is_attribution_suffix t = true -> nonspace t = 25.
Proof.
  intros H. apply is_attribution_suffix_elim in H.
  destruct H as (w1 & d & w2 & w3 & -> & H1 & Hd & H2 & H3).
  rewrite !nonspace_app, (nonspace_all_space H1), (nonspace_all_space H2),
    (nonspace_all_space H3).
  unfold nonspace at 1. cbn [filter]. rewrite (dash_not_space Hd). reflexivity.
Qed.

Lemma cut_where_app P (p tail : str) :
  P tail = true ->
  exists p1 p2, p = p1 ++ p2 /\ cut_where P (p ++ tail) = p1
                /\ P (p2 ++ tail) = true.
Proof.
  intros Ht. induction p as [|c p (p1 & p2 & Hp & Hcut & HP)].
  - exists [], []. cbn [app]. repeat split; [|assumption].
    destruct tail; cbn; now rewrite Ht.
  - cbn [app cut_where]. destruct (P (c :: p ++ tail)) eqn:E.
    + exists [], (c :: p). now repeat split.
    + exists (c :: p1), p2. cbn [app]. repeat split; [now f_equal|now f_equal|assumption].
Qed.

Lemma cut_where_split P (s : str) :
  cut_where P s = s \/ exists t, s = cut_where P s ++ t /\ P t = true.
Proof.
  induction s as [|c s IH].
  - cbn. destruct (P []) eqn:E; [right; now exists []|now left].
  - cbn [cut_where]. destruct (P (c :: s)) eqn:E.
    + right. now exists (c :: s).
    + destruct IH as [IH|(t & Hs & Ht)].
      * left. now f_equal.
      * right. exists t. split; [cbn; now f_equal|assumption].
Qed.

Lemma rstrip_app_space a q : all_space q -> rstrip (a ++ q) = rstrip a.
Proof.
  unfold rstrip, lstrip, all_space. intros H. rewrite rev_app_distr.
  rewrite drop_while_app_all; [reflexivity|].
  rewrite forallb_forall in *. intros x Hx. apply H. now apply in_rev.
Qed.

Lemma strip_app_space a q : all_space q -> strip (a ++ q) = strip a.
Proof.
  intros H. unfold strip, lstrip.
  destruct (drop_while_split isspace a) as (w & Ha & Hw).
  destruct (drop_while isspace a) as [|c a'] eqn:E.
  - rewrite app_nil_r in Ha. subst w.
    rewrite drop_while_all; [reflexivity|].
    unfold all_space in H. now rewrite forallb_app, Hw, H.
  - assert (Hc : isspace c = false).
    { destruct a as [|x a]; [discriminate|].
      clear -E. revert E. induction (x :: a) as [|y l IH]; [discriminate|].
      simpl. destruct (isspace y) eqn:Hy; [exact IH|]. intros [= <- _]. exact Hy. }
    rewrite Ha at 1. rewrite <- app_assoc, drop_while_app_all by exact Hw.
    cbn [app drop_while]. rewrite Hc.
    change (c :: a' ++ q) with ((c :: a') ++ q). now apply rstrip_app_space.
Qed.

(** The title of a text that ends with the attribution suffix. *)
Lemma strip_cut_suffix (p w1 w2 w3 : str) d :
  all_space w1 -> is_dash d -> all_space w2 -> all_space w3 ->
  strip (cut_where is_attribution_suffix
           (p ++ w1 ++ [d] ++ w2 ++ ATTRIBUTION ++ w3))
  = strip p.
Proof.
  intros H1 Hd H2 H3.
  pose proof (is_attribution_suffix_intro H1 Hd H2 H3) as Ht.
  destruct (cut_where_app is_attribution_suffix p _ Ht)
    as (p1 & p2 & Hp & Hcut & HP).
  rewrite Hcut, Hp. symmetry. apply strip_app_space.
  apply nonspace_zero. apply nonspace_suffix in HP.
  apply nonspace_suffix in Ht. rewrite nonspace_app in HP. lia.
Qed.

(** The title of a text that does not. *)
Lemma cut_without_suffix (s : str) :
  (forall p w1 d w2 w3,
      all_space w1 -> is_dash d -> all_space w2 -> all_space w3 ->
      s <> p ++ w1 ++ [d] ++ w2 ++ ATTRIBUTION ++ w3) ->
  cut_where is_attribution_suffix s = s.
Proof.
  intros H. destruct (cut_where_split is_attribution_suffix s)
    as [Hs|(t & Hs & Ht)]; [exact Hs|].
  exfalso. apply is_attribution_suffix_elim in Ht.
  destruct Ht as (w1 & d & w2 & w3 & -> & H1 & Hd & H2 & H3).
  exact (H _ _ _ _ _ H1 Hd H2 H3 Hs).
Qed.

Lemma no_suffix_when_uncut (s : str) :
  cut_where is_attribution_suffix s = s ->
  forall p w1 d w2 w3,
    all_space w1 -> is_dash d -> all_space w2 -> all_space w3 ->
    s <> p ++ w1 ++ [d] ++ w2 ++ ATTRIBUTION ++ w3.
Proof.
  intros Hcut p w1 d w2 w3 H1 Hd H2 H3 E.
  pose proof (is_attribution_suffix_intro H1 Hd H2 H3) as Ht.
  destruct (cut_where_app is_attribution_suffix p _ Ht)
    as (p1 & p2 & Hp & Hp1 & _).
  rewrite <- E, Hcut in Hp1. subst p1. rewrite Hp in E.
  apply (f_equal (@length char)) in E.
  rewrite !length_app in E. cbn [length] in E. lia.
Qed.

Lemma str_eqb_eq a b : str_eqb a b = true <-> a = b.
Proof. unfold str_eqb. destruct (list_eq_dec N.eq_dec a b); split; congruence. Qed.

Lemma str_eqb_refl a : str_eqb a a = true.
Proof. now apply str_eqb_eq. Qed.

Lemma limit_1_empty {A} (p : Row -> bool) (f : Row -> A) (l : list Row) :
  firstn 1 (map f (filter p l)) = [] <-> existsb p l = false.
Proof.
  induction l as [|r l IH]; simpl; [tauto|].
  destruct (p r); simpl; [split; discriminate|exact IH].
Qed.

(** ** The tree *)

(** Induction on the tree, with the hypothesis for every child. *)
Lemma PageElement_induction (P : PageElement -> Prop) :
  (forall n a cs, Forall P cs -> P (Tag n a cs)) ->
  (forall c t, P (Str c t)) ->
  forall e, P e.
Proof.
  intros HTag HStr. fix IH 1. intros [n a cs|c t]; [|apply HStr].
  apply HTag. induction cs as [|c cs IHcs]; constructor; [apply IH|exact IHcs].
Qed.

Lemma self_and_descendants_eq e :
  self_and_descendants e = e :: descendants e.
Proof. destruct e; reflexivity. Qed.












Lemma in_descendants_child n a cs c d :
  In c cs -> In d (self_and_descendants c) -> In d (descendants (Tag n a cs)).
Proof.
  intros Hc Hd. cbn [descendants]. apply in_flat_map. now exists c.
Qed.


Lemma has_name_decompose_all names p d :
  has_name names (decompose_all p d) = has_name names d.
Proof. destruct d; reflexivity. Qed.

Lemma class_matches_decompose_all r p d :
  class_matches r (decompose_all p d) = class_matches r d.
Proof. destruct d; reflexivity. Qed.


(** ** Bytes *)








(** ** The extractor *)



(** What a returned record is made of. *)
Lemma extract_Ok html_content filename r :
  extract_article_data html_content filename = Ok r ->
  let soup := BeautifulSoup html_content in
  exists pub_date utf8,
    extract_pub_date soup = Ok pub_date
    /\ encode_utf8 (clean_up (extract_body soup)) = Ok utf8
    /\ r = {| title := extract_title soup filename;
              publication_date := option_map isoformat pub_date;
              cleaned_text := clean_up (extract_body soup);
              raw_html := html_content;
              canonical_url := extract_canonical_url soup;
              word_count := length (split (clean_up (extract_body soup)));
              content_hash := sha256_hexdigest utf8 |}.
Proof.
  unfold extract_article_data, bind. cbn zeta.
  destruct (extract_pub_date (BeautifulSoup html_content))
    as [pub_date|]; [|discriminate].
  destruct (encode_utf8 _) as [utf8|]; [|discriminate].
  intros [= <-]. now exists pub_date, utf8.
Qed.



(** C5, amended.  With a title element, [title] is the element's text
    without its trailing attribution suffix and stripped: the suffix is
    optional whitespace, an en dash or a hyphen, optional whitespace, the
    words "Stratechery by Ben Thompson" in exactly this case, optional
    whitespace, at the end of the text; a text without such a suffix is
    only stripped.  So "Antitrust in 2024 – Stratechery by Ben Thompson"
    gives "Antitrust in 2024".  Without a title element, [title] is the
    file name with every ".html" removed and then every
    " – Stratechery by Ben Thompson" (en dash) removed. *)
Theorem title_resolution html_content filename r :
  extract_article_data html_content filename = Ok r ->
  let soup := BeautifulSoup html_content in
  (forall title_tag,
      find (has_name [py "title"]) soup = Some title_tag ->
      (forall p w1 d w2 w3,
          all_space w1 -> is_dash d -> all_space w2 -> all_space w3 ->
          get_text title_tag = p ++ w1 ++ [d] ++ w2 ++ ATTRIBUTION ++ w3 ->
          title r = strip p)
      /\ ((forall p w1 d w2 w3,
              all_space w1 -> is_dash d -> all_space w2 -> all_space w3 ->
              get_text title_tag <> p ++ w1 ++ [d] ++ w2 ++ ATTRIBUTION ++ w3) ->
          title r = strip (get_text title_tag))
      /\ (get_text title_tag
          = py "Antitrust in 2024 " ++ [EN_DASH]
            ++ py " Stratechery by Ben Thompson" ->
          title r = py "Antitrust in 2024"))
  /\ (find (has_name [py "title"]) soup = None ->
      title r = replace (replace filename (py ".html") []) FILENAME_SUFFIX []).
Proof.
  intros H soup. destruct (extract_Ok _ _ H) as (pub & utf8 & _ & _ & ->).
  fold soup. cbn [title]. unfold extract_title. split.
  - intros title_tag ->. rewrite sub_TITLE_SUFFIX_cut. split; [|split].
    + intros p w1 d w2 w3 H1 Hd H2 H3 ->. now apply strip_cut_suffix.
    + intros Hno. now rewrite cut_without_suffix.
    + intros ->.
      change (py "Antitrust in 2024 " ++ [EN_DASH]
              ++ py " Stratechery by Ben Thompson")
        with (py "Antitrust in 2024" ++ [SPACE] ++ [EN_DASH] ++ [SPACE]
              ++ ATTRIBUTION ++ []).
      rewrite strip_cut_suffix; [reflexivity|reflexivity|now left
                                |reflexivity|reflexivity].
  - now intros ->.
Qed.

(** C6 (text normalization).  [cleaned_text] is the extracted body text
    with every run of three or more newlines collapsed to two, then cut
    from the first case-insensitive "share this:" to the end, then
    stripped of leading and trailing whitespace: the code's [re.sub]
    calls compute exactly the function the specification words.  A
    paragraph, three blank lines, then "Share this:" and links yield the
    paragraph alone. *)
Theorem text_normalization html_content filename r :
  extract_article_data html_content filename = Ok r ->
  cleaned_text r = Spec.normalize (extract_body (BeautifulSoup html_content))
  /\ (forall text, clean_up text = Spec.normalize text)
  /\ clean_up (py "One paragraph." ++ [NEWLINE; NEWLINE; NEWLINE; NEWLINE]
               ++ py "Share this:" ++ [NEWLINE] ++ py "[links]")
     = py "One paragraph."
  /\ clean_up (py "First." ++ [NEWLINE; NEWLINE; NEWLINE; NEWLINE; NEWLINE]
               ++ py "Second." ++ [NEWLINE; NEWLINE] ++ py "SHARE THIS: x")
     = py "First." ++ [NEWLINE; NEWLINE] ++ py "Second.".
Proof.
  intros H. destruct (extract_Ok _ _ H) as (pub & utf8 & _ & _ & ->).
  cbn [cleaned_text]. split; [apply clean_up_normalize|].
  split; [exact clean_up_normalize|]. split; vm_compute; reflexivity.
Qed.


(** ** The ingestion loop *)

Lemma hash_limit_1 h db :
  firstn 1 (map issue_id (filter (has_content_hash h) (rows db))) = []
  <-> stored_hash h db = false.
Proof. apply limit_1_empty. Qed.

Lemma title_limit_1 t db :
  firstn 1 (map issue_id (filter (has_title t) (rows db))) = []
  <-> stored_title t db = false.
Proof. apply limit_1_empty. Qed.

Lemma hash_limit_1_found h db :
  stored_hash h db = true ->
  exists id, firstn 1 (map issue_id (filter (has_content_hash h) (rows db))) = [id].
Proof.
  intros H. destruct (firstn 1 _) as [|id l] eqn:E.
  - apply hash_limit_1 in E. congruence.
  - exists id. destruct (map issue_id _); [discriminate|].
    cbn in E. congruence.
Qed.

Lemma title_limit_1_found t db :
  stored_title t db = true ->
  exists id, firstn 1 (map issue_id (filter (has_title t) (rows db))) = [id].
Proof.
  intros H. destruct (firstn 1 _) as [|id l] eqn:E.
  - apply title_limit_1 in E. congruence.
  - exists id. destruct (map issue_id _); [discriminate|].
    cbn in E. congruence.
Qed.

Ltac run :=
  cbn [supabase stdout successful skipped failed rows next_issue_id calls].

Lemma iteration_cases total i cond f st :
  Iteration total i cond f st
    (iteration total i cond f st).
Proof.
  unfold iteration, try_block, and_then, lift.
  destruct (read f) as [html|e] eqn:Hread; [|now apply unreadable_file].
  destruct (extract_article_data html (name f)) as [data|e] eqn:Hextract;
    [|now apply extraction_raises with html].
  unfold print at 1 2 3.
  change (on_stdout _ (on_stdout _ (on_stdout _ ?s))) with (described data s).
  set (st1 := described data _).
  unfold on_supabase at 1, select_by_content_hash.
  destruct (hash_lookup_error cond) as [e|] eqn:Hhash.
  { now apply hash_lookup_raises with html. }
  change (rows (called _ (supabase st1))) with (rows (supabase st)).
  destruct (stored_hash (content_hash data) (supabase st)) eqn:Hh.
  { destruct (hash_limit_1_found _ _ Hh) as (id & ->).
    now apply duplicate_content_hash with html. }
  apply hash_limit_1 in Hh as Hl. rewrite Hl.
  unfold on_supabase at 1, select_by_title. run.
  destruct (title_lookup_error cond) as [e|] eqn:Htitle.
  { now apply title_lookup_raises with html. }
  change (rows (called _ (called _ (supabase st1)))) with (rows (supabase st)).
  destruct (stored_title (title data) (supabase st)) eqn:Ht.
  { destruct (title_limit_1_found _ _ Ht) as (id & ->).
    now apply duplicate_title with html. }
  apply title_limit_1 in Ht as Hl'. rewrite Hl'.
  unfold on_supabase, insert. run.
  destruct (insert_behaviour cond) as [| |e] eqn:Hins.
  - now apply ingested with html.
  - now apply no_data_returned with html.
  - now apply insert_raises with html.
Qed.


Ltac states :=
  cbn [caught count_failed count_skipped count_successful on_stdout
       asked described persisted called
       supabase stdout successful skipped failed rows next_issue_id calls].






















Lemma Iteration_inserted total i cond f st st' :
  Iteration total i cond f st st' ->
  length (rows (supabase st')) + successful st
  = length (rows (supabase st)) + successful st'.
Proof.
  intros []; states; try lia. rewrite length_app. cbn [length]. lia.
Qed.

Lemma loop_inserted conditions total html_files :
  forall i st,
    let st' := loop conditions total i html_files st in
    length (rows (supabase st')) + successful st
    = length (rows (supabase st)) + successful st'.
Proof.
  induction html_files as [|f rest IH]; intros i st; cbn [loop].
  - reflexivity.
  - cbn zeta in *.
    pose proof (Iteration_inserted (iteration_cases total i (conditions i) f st)).
    specialize (IH (S i) (iteration total i (conditions i) f st)). lia.
Qed.

(** C9, amended.  [ingest_html_files] returns the number of successful
    documents, which is also the number of rows it added; the skipped and
    failed counts are only printed, with the total and the successful
    count, in the last four lines of the summary. *)
Theorem ingest_returns_successful_count directory html_files conditions client :
  let result := ingest_html_files directory html_files conditions client in
  let st := fst result in
  snd result = successful st
  /\ length (rows (supabase st)) = length (rows client) + snd result
  /\ exists lines,
      stdout st
      = lines ++ [py "Total:      " ++ str_of_nat (length html_files);
                  py "Successful: " ++ str_of_nat (successful st);
                  py "Skipped:    " ++ str_of_nat (skipped st);
                  py "Failed:     " ++ str_of_nat (failed st)].
Proof.
  cbn zeta. unfold ingest_html_files.
  cbn [fst snd supabase stdout successful skipped failed].
  split; [reflexivity|]. split.
  - pose proof (loop_inserted conditions (length html_files) html_files 1
                  (start directory (length html_files) client)) as H.
    cbn zeta in H. cbn [start supabase successful] in H. lia.
  - unfold summary. cbn [successful skipped failed].
    eexists (_ ++ [_; _; _]). rewrite <- app_assoc. reflexivity.
Qed.


(* ================================================================== *)
(** * Further properties *)

(** ** Where a pattern matches *)

Lemma search_true_iff fl r (s : str) :
  search fl r s = true
  <-> exists a b, s = a ++ b /\ match_at fl r b <> None.
Proof.
  induction s as [|c s IH]; cbn [search].
  - destruct (match_at fl r []) eqn:E.
    + split; [|reflexivity]. intros _. exists [], []. split; [reflexivity|].
      now rewrite E.
    + split; [discriminate|]. intros (a & b & Hab & Hm).
      symmetry in Hab. apply app_eq_nil in Hab. destruct Hab as [-> ->].
      now rewrite E in Hm.
  - destruct (match_at fl r (c :: s)) eqn:E.
    + split; [|reflexivity]. intros _. exists [], (c :: s).
      split; [reflexivity|]. now rewrite E.
    + rewrite IH. split.
      * intros (a & b & -> & Hm). now exists (c :: a), b.
      * intros (a & b & Hab & Hm). destruct a as [|x a].
        -- cbn in Hab. subst b. now rewrite E in Hm.
        -- injection Hab as <- ->. now exists a, b.
Qed.

Lemma search_false_suffix fl r (a b : str) :
  search fl r (a ++ b) = false -> search fl r b = false.
Proof.
  intros H. destruct (search fl r b) eqn:E; [|reflexivity].
  apply search_true_iff in E. destruct E as (x & y & -> & Hm).
  assert (search fl r (a ++ x ++ y) = true); [|congruence].
  apply search_true_iff. exists (a ++ x), y. now rewrite app_assoc.
Qed.

(** A text the pattern matches nowhere is left as it is. *)
Lemma sub_unmatched fl r repl (s : str) :
  search fl r s = false -> Re.sub fl r repl s = s.
Proof.
  unfold Re.sub. induction s as [|c s IH]; cbn [search sub_from].
  - now destruct (match_at fl r []).
  - destruct (match_at fl r (c :: s)); [discriminate|].
    intros H. now rewrite IH.
Qed.

Lemma search_infix fl r P (a t b : str) :
  starts fl r P ->
  search fl r (a ++ t ++ b) = false -> search fl r t = false.
Proof.
  intros [Hm Hext] H. destruct (search fl r t) eqn:E; [|reflexivity].
  apply search_true_iff in E. destruct E as (x & y & -> & Hy).
  assert (search fl r (a ++ (x ++ y) ++ b) = true); [|congruence].
  apply search_true_iff. exists (a ++ x), (y ++ b). split.
  - now rewrite <- !app_assoc.
  - apply Hm, Hext, Hm, Hy.
Qed.

Lemma search_cut_where fl r P (s : str) :
  starts fl r P -> P [] = false -> search fl r (cut_where P s) = false.
Proof.
  intros [Hm Hext] Hnil.
  assert (Hend : search fl r [] = false).
  { cbn [search]. destruct (match_at fl r []) eqn:E'; [|reflexivity].
    assert (P [] = true) by (apply Hm; now rewrite E'). congruence. }
  induction s as [|c s IH]; cbn [cut_where].
  - now rewrite Hnil.
  - destruct (P (c :: s)) eqn:E; [exact Hend|].
    cbn [search]. rewrite IH.
    destruct (match_at fl r (c :: cut_where P s)) eqn:E'; [|reflexivity].
    exfalso.
    assert (H1 : P (c :: cut_where P s) = true) by (apply Hm; now rewrite E').
    destruct (cut_where_split P s) as [Hs|(t & Hs & _)].
    + rewrite Hs in H1. congruence.
    + apply Hext with (b := t) in H1. cbn [app] in H1. rewrite <- Hs in H1.
      congruence.
Qed.

(** *** The two patterns of the clean-up *)

Lemma run_length_app_le p (a b : str) :
  run_length p a <= run_length p (a ++ b).
Proof.
  induction a as [|c a IH]; cbn [run_length app]; [lia|].
  destruct (p c); lia.
Qed.

Lemma starts_NEWLINES : starts no_flags NEWLINES newline_run.
Proof.
  split.
  - intros s. rewrite match_at_NEWLINES. unfold newline_run.
    destruct (3 <=? _); split; congruence.
  - unfold newline_run. intros a b H. apply Nat.leb_le in H. apply Nat.leb_le.
    pose proof (run_length_app_le (fun c => (c =? NEWLINE)%N) a b). lia.
Qed.

Lemma starts_with_ignoring_case_app (a b m : str) :
  Spec.starts_with_ignoring_case a m = true ->
  Spec.starts_with_ignoring_case (a ++ b) m = true.
Proof.
  revert a. induction m as [|x m IH]; intros a; [now destruct (a ++ b)|].
  destruct a as [|c a]; cbn [Spec.starts_with_ignoring_case app]; [discriminate|].
  intros H. apply andb_prop in H. destruct H as [H1 H2].
  now rewrite H1, IH.
Qed.

Lemma starts_SHARE_FOOTER : starts SHARE_FLAGS SHARE_FOOTER share_marker.
Proof.
  split.
  - intros s. rewrite match_at_SHARE_FOOTER. unfold share_marker.
    destruct (Spec.starts_with_ignoring_case s SHARE_THIS); split; congruence.
  - intros a b. apply starts_with_ignoring_case_app.
Qed.

(** After the collapse no run of three newlines is left. *)
Lemma search_NEWLINES_repeat c n k (t : str) :
  Spec.not_headed_by c t ->
  (c = NEWLINE -> n <= 2) -> k <= n ->
  search no_flags NEWLINES t = false ->
  search no_flags NEWLINES (repeat c k ++ t) = false.
Proof.
  intros Ht Hn Hk Hrest. induction k as [|k IH]; [exact Hrest|].
  change (repeat c (S k) ++ t) with (c :: (repeat c k ++ t)).
  cbn [search]. rewrite IH by lia.
  change (c :: (repeat c k ++ t)) with (repeat c (S k) ++ t).
  rewrite match_at_NEWLINES.
  destruct (N.eq_dec c NEWLINE) as [->|Hc].
  - rewrite run_length_repeat by assumption.
    specialize (Hn eq_refl).
    destruct (3 <=? S k) eqn:E; [apply Nat.leb_le in E; lia|reflexivity].
  - cbn [repeat app]. rewrite run_length_other by assumption. reflexivity.
Qed.

Lemma search_NEWLINES_unruns rs :
  Spec.good_runs rs ->
  Forall (fun r => fst r = NEWLINE -> snd r <= 2) rs ->
  search no_flags NEWLINES (Spec.unruns rs) = false.
Proof.
  induction rs as [|[c n] rs IH]; intros Hgood Hshort; [reflexivity|].
  rewrite unruns_cons. destruct Hgood as (_ & Hnext & Hgood).
  inversion Hshort as [|? ? Hn Hrest]; subst.
  apply search_NEWLINES_repeat with (n := n);
    [now apply unruns_headed|exact Hn|lia|now apply IH].
Qed.

Lemma good_runs_collapsed rs :
  Spec.good_runs rs ->
  Spec.good_runs (map (fun r => if (fst r =? NEWLINE)%N && (3 <=? snd r)
                                then (NEWLINE, 2) else r) rs).
Proof.
  induction rs as [|[c n] rs IH]; [trivial|].
  intros (Hn & Hnext & Hgood). cbn [map fst snd].
  assert (Hhead : forall rs', match rs' with (d, _) :: _ => c <> d | [] => True end ->
            match map (fun r => if (fst r =? NEWLINE)%N && (3 <=? snd r)
                                then (NEWLINE, 2) else r) rs'
            with (d, _) :: _ => c <> d | [] => True end).
  { intros [|[d m] rs'] H; [trivial|]. cbn [map fst snd].
    destruct ((d =? NEWLINE)%N && (3 <=? m)) eqn:E; [|exact H].
    apply andb_prop in E. destruct E as [E _]. apply N.eqb_eq in E. now subst d. }
  destruct ((c =? NEWLINE)%N && (3 <=? n)) eqn:E.
  - apply andb_prop in E. destruct E as [E _]. apply N.eqb_eq in E. subst c.
    split; [lia|]. split; [now apply Hhead|now apply IH].
  - split; [exact Hn|]. split; [now apply Hhead|now apply IH].
Qed.

Lemma search_NEWLINES_collapsed (s : str) :
  search no_flags NEWLINES (Spec.collapse_newlines s) = false.
Proof.
  unfold Spec.collapse_newlines.
  apply search_NEWLINES_unruns; [apply good_runs_collapsed, runs_good|].
  apply Forall_forall. intros r Hin. apply in_map_iff in Hin.
  destruct Hin as ([c n] & <- & _). cbn [fst snd].
  destruct ((c =? NEWLINE)%N && (3 <=? n)) eqn:E; cbn [fst snd]; [lia|].
  intros ->. rewrite N.eqb_refl in E. cbn [andb] in E.
  apply Nat.leb_gt in E. lia.
Qed.

(** *** [strip] *)

Lemma drop_while_head p (s : str) :
  match drop_while p s with c :: _ => p c = false | [] => True end.
Proof.
  induction s as [|c s IH]; cbn [drop_while]; [trivial|].
  destruct (p c) eqn:E; [exact IH|exact E].
Qed.

Lemma drop_while_idem p (s : str) :
  drop_while p (drop_while p s) = drop_while p s.
Proof.
  pose proof (drop_while_head p s) as H.
  destruct (drop_while p s) as [|c t]; [reflexivity|].
  cbn [drop_while]. now rewrite H.
Qed.

Lemma drop_while_snoc p (a : str) c :
  p c = false -> drop_while p (a ++ [c]) = drop_while p a ++ [c].
Proof.
  intros Hc. induction a as [|x a IH]; cbn [drop_while app].
  - now rewrite Hc.
  - destruct (p x); [exact IH|reflexivity].
Qed.

Lemma rstrip_cons c (u : str) :
  isspace c = false -> rstrip (c :: u) = c :: rstrip u.
Proof.
  intros Hc. unfold rstrip, lstrip. cbn [rev].
  rewrite drop_while_snoc by assumption. rewrite rev_app_distr. reflexivity.
Qed.

Lemma rstrip_idem (s : str) : rstrip (rstrip s) = rstrip s.
Proof.
  unfold rstrip, lstrip. now rewrite rev_involutive, drop_while_idem.
Qed.

Lemma strip_idem (s : str) : strip (strip s) = strip s.
Proof.
  unfold strip at 2 3. unfold strip.
  pose proof (drop_while_head isspace s) as H. fold (lstrip s) in H.
  destruct (lstrip s) as [|c u] eqn:E.
  - reflexivity.
  - rewrite rstrip_cons by assumption.
    unfold lstrip at 1. cbn [drop_while]. rewrite H.
    rewrite <- rstrip_cons by assumption. apply rstrip_idem.
Qed.

Lemma rstrip_split (s : str) : exists q, s = rstrip s ++ q.
Proof.
  unfold rstrip, lstrip.
  destruct (drop_while_split isspace (rev s)) as (w & Hw & _).
  exists (rev w). rewrite <- rev_app_distr, <- Hw. now rewrite rev_involutive.
Qed.

Lemma strip_infix (s : str) : exists a b, s = a ++ strip s ++ b.
Proof.
  unfold strip. destruct (drop_while_split isspace s) as (w & Hw & _).
  destruct (rstrip_split (lstrip s)) as (q & Hq).
  exists w, q. unfold lstrip in *. now rewrite <- Hq.
Qed.

(** *** The cleaned text *)

Lemma clean_up_normal (s : str) :
  let t := clean_up s in
  strip t = t
  /\ search no_flags NEWLINES t = false
  /\ search SHARE_FLAGS SHARE_FOOTER t = false
  /\ clean_up t = t.
Proof.
  intros t.
  assert (Hstrip : strip t = t).
  { unfold t. rewrite clean_up_normalize. apply strip_idem. }
  assert (Hshape : exists a b c,
             Spec.collapse_newlines s = (a ++ t ++ b) ++ c
             /\ Spec.truncate_at_marker (Spec.collapse_newlines s) = a ++ t ++ b).
  { unfold t. rewrite clean_up_normalize. unfold Spec.normalize.
    destruct (strip_infix (Spec.truncate_at_marker (Spec.collapse_newlines s)))
      as (a & b & Hab).
    rewrite truncate_at_marker_cut in *.
    destruct (cut_where_split
                (fun s => Spec.starts_with_ignoring_case s SHARE_THIS)
                (Spec.collapse_newlines s)) as [Hs|(c & Hs & _)].
    - exists a, b, []. rewrite app_nil_r. rewrite <- Hab. now rewrite Hs.
    - exists a, b, c. rewrite <- Hab. split; [exact Hs|reflexivity]. }
  destruct Hshape as (a & b & c & Hcollapse & Htrunc).
  assert (Hnl : search no_flags NEWLINES t = false).
  { apply search_infix with (P := newline_run) (a := a) (b := b ++ c);
      [exact starts_NEWLINES|].
    rewrite <- app_assoc in Hcollapse. rewrite <- app_assoc in Hcollapse.
    rewrite <- Hcollapse. apply search_NEWLINES_collapsed. }
  assert (Hshare : search SHARE_FLAGS SHARE_FOOTER t = false).
  { apply search_infix with (P := share_marker) (a := a) (b := b);
      [exact starts_SHARE_FOOTER|].
    rewrite <- Htrunc, truncate_at_marker_cut.
    apply search_cut_where; [exact starts_SHARE_FOOTER|reflexivity]. }
  repeat split; try assumption.
  unfold clean_up. cbn zeta.
  rewrite (@sub_unmatched _ _ _ _ Hnl), (@sub_unmatched _ _ _ _ Hshare). exact Hstrip.
Qed.

(** *** [split] *)

Lemma split_acc_tokens (s cur : str) :
  forallb visible cur = true ->
  concat (split_acc cur s) = rev cur ++ filter visible s
  /\ Forall (fun w => w <> [] /\ forallb visible w = true) (split_acc cur s).
Proof.
  revert cur. induction s as [|c s IH]; intros cur Hcur; cbn [split_acc filter].
  - destruct cur as [|x cur]; [now split|].
    cbn [concat]. rewrite !app_nil_r. split; [reflexivity|].
    constructor; [|constructor]. split.
    + cbn [rev]. now destruct (rev cur).
    + rewrite forallb_forall in *. intros y Hy. apply Hcur. now apply in_rev.
  - unfold visible at 1 3. destruct (isspace c) eqn:Hc; cbn [negb].
    + destruct (IH [] eq_refl) as [Hcat Htok]. cbn [rev app] in Hcat.
      destruct cur as [|x cur]; [now split|].
      cbn [concat]. rewrite Hcat. split; [reflexivity|].
      constructor; [|exact Htok]. split.
      * cbn [rev]. now destruct (rev cur).
      * rewrite forallb_forall in *. intros y Hy. apply Hcur. now apply in_rev.
    + assert (Hcur' : forallb visible (c :: cur) = true).
      { cbn [forallb]. unfold visible at 1. now rewrite Hc. }
      destruct (IH (c :: cur) Hcur') as [Hcat Htok]. split; [|exact Htok].
      rewrite Hcat. cbn [rev]. now rewrite <- app_assoc.
Qed.

Lemma split_tokens (s : str) :
  concat (split s) = filter visible s
  /\ Forall (fun w => w <> [] /\ forallb visible w = true) (split s).
Proof. apply (split_acc_tokens s []). reflexivity. Qed.

Lemma length_concat_tokens (ws : list str) :
  Forall (fun w => w <> [] /\ forallb visible w = true) ws ->
  length ws <= length (concat ws).
Proof.
  induction 1 as [|w ws [Hw _] _ IH]; [reflexivity|].
  cbn [concat length]. rewrite length_app.
  destruct w; [congruence|]. cbn [length]. lia.
Qed.

Lemma split_nil_iff (s : str) : split s = [] <-> all_space s.
Proof.
  destruct (split_tokens s) as [Hcat Htok]. unfold all_space. split.
  - intros E. rewrite E in Hcat. cbn [concat] in Hcat.
    apply forallb_forall. intros c Hc.
    destruct (isspace c) eqn:Hs; [reflexivity|].
    assert (Hin : In c (filter visible s)).
    { apply filter_In. split; [exact Hc|]. unfold visible. now rewrite Hs. }
    rewrite <- Hcat in Hin. destruct Hin.
  - intros Hall.
    assert (Hnone : filter visible s = []).
    { clear Hcat Htok. induction s as [|c s IH]; [reflexivity|].
      cbn [forallb] in Hall. apply andb_prop in Hall. destruct Hall as [Hc Hs].
      cbn [filter]. unfold visible at 1. rewrite Hc. cbn [negb]. now apply IH. }
    rewrite Hnone in Hcat.
    destruct (split s) as [|w ws]; [reflexivity|].
    inversion Htok as [|? ? [Hw _] _]; subst.
    cbn [concat] in Hcat. apply app_eq_nil in Hcat. destruct Hcat. congruence.
Qed.

Lemma stripped_all_space (t : str) : strip t = t -> all_space t -> t = [].
Proof.
  intros Ht Hall. rewrite <- Ht. unfold strip, lstrip.
  now rewrite (drop_while_all isspace t Hall).
Qed.

(** *** Literal patterns *)

Lemma match_at_lits (w s : str) :
  match_at no_flags (lits w) s <> None <-> startswith s w = true.
Proof.
  unfold match_at. rewrite match_k_lits.
  destruct (startswith s w); split; congruence.
Qed.

Lemma search_lits_iff (w s : str) :
  search no_flags (lits w) s = true <-> exists a b, s = a ++ w ++ b.
Proof.
  rewrite search_true_iff. split.
  - intros (a & b & -> & Hm). apply match_at_lits in Hm.
    apply startswith_split in Hm. exists a, (skipn (length w) b).
    now rewrite <- Hm.
  - intros (a & b & ->). exists a, (w ++ b). split; [reflexivity|].
    apply match_at_lits, startswith_app.
Qed.

Lemma match_at_RELATED (s : str) :
  match_at no_flags RELATED s <> None
  <-> startswith s (py "related") = true
      \/ startswith s (py "jp-relatedposts") = true.
Proof.
  unfold match_at, RELATED. cbn [match_k]. rewrite !match_k_lits.
  destruct (startswith s (py "related")), (startswith s (py "jp-relatedposts"));
    split; try congruence; intuition congruence.
Qed.

Lemma search_RELATED_iff (s : str) :
  search no_flags RELATED s = true <-> exists a b, s = a ++ py "related" ++ b.
Proof.
  rewrite search_true_iff. split.
  - intros (a & b & -> & Hm). apply match_at_RELATED in Hm.
    destruct Hm as [Hm|Hm]; apply startswith_split in Hm.
    + exists a, (skipn (length (py "related")) b). now rewrite <- Hm.
    + exists (a ++ py "jp-"),
             (py "posts" ++ skipn (length (py "jp-relatedposts")) b).
      rewrite Hm at 1. rewrite <- !app_assoc. reflexivity.
  - intros (a & b & ->). exists a, (py "related" ++ b). split; [reflexivity|].
    apply match_at_RELATED. left. apply startswith_app.
Qed.

Lemma search_RELATED_lits (s : str) :
  search no_flags RELATED s = search no_flags (lits (py "related")) s.
Proof.
  destruct (search no_flags RELATED s) eqn:E1,
           (search no_flags (lits (py "related")) s) eqn:E2; try reflexivity.
  - apply search_RELATED_iff, search_lits_iff in E1. congruence.
  - apply search_lits_iff, search_RELATED_iff in E2. congruence.
Qed.

Lemma values_match_re_iff (vs : list str) r (w : str) :
  (forall s, search no_flags r s = true <-> exists a b, s = a ++ w ++ b) ->
  values_match_re vs r = true
  <-> exists v a b, In v (join [SPACE] vs :: vs) /\ v = a ++ w ++ b.
Proof.
  intros Hr. unfold values_match_re. rewrite orb_true_iff, existsb_exists. split.
  - intros [(v & Hin & Hv)|Hv]; apply Hr in Hv; destruct Hv as (a & b & Hv).
    + exists v, a, b. split; [now right|exact Hv].
    + exists (join [SPACE] vs), a, b. split; [now left|exact Hv].
  - intros (v & a & b & [<-|Hin] & Hv).
    + right. apply Hr. now exists a, b.
    + left. exists v. split; [exact Hin|]. apply Hr. now exists a, b.
Qed.

Lemma class_matches_iff r (w : str) e :
  (forall s, search no_flags r s = true <-> exists a b, s = a ++ w ++ b) ->
  class_matches r e = true
  <-> exists vs, values e (py "class") = Some vs
                 /\ exists v a b, In v (join [SPACE] vs :: vs) /\ v = a ++ w ++ b.
Proof.
  intros Hr. destruct e as [n attrs cs|c t]; cbn [class_matches].
  - destruct (values (Tag n attrs cs) (py "class")) as [vs|].
    + rewrite (@values_match_re_iff vs _ _ Hr). split.
      * intros H. now exists vs.
      * intros (vs' & [= <-] & H). exact H.
    + split; [discriminate|]. now intros (vs & [=] & _).
  - split; [discriminate|]. now intros (vs & [=] & _).
Qed.

Lemma decompose_all_ext p q e :
  (forall x, p x = q x) -> decompose_all p e = decompose_all q e.
Proof.
  intros Hpq. induction e as [n a cs IH|c t] using PageElement_induction;
    [|reflexivity].
  cbn [decompose_all]. f_equal.
  induction cs as [|x cs IHcs]; [reflexivity|].
  inversion IH as [|? ? Hx Hcs]; subst.
  rewrite <- Hpq. destruct (p x); [now apply IHcs|].
  rewrite Hx. f_equal. now apply IHcs.
Qed.

(** *** Removal *)

(** Two removal loops in a row are one loop for either criterion, when the
    second criterion looks at the name and the attributes only. *)
Lemma decompose_all_twice p q e :
  (forall p' d, q (decompose_all p' d) = q d) ->
  decompose_all q (decompose_all p e)
  = decompose_all (fun x => p x || q x) e.
Proof.
  intros Hq. induction e as [n a cs IH|c t] using PageElement_induction;
    [|reflexivity].
  cbn [decompose_all]. f_equal.
  induction cs as [|x cs IHcs]; [reflexivity|].
  inversion IH as [|? ? Hx Hcs]; subst.
  destruct (p x) eqn:Hp; cbn [orb]; [now apply IHcs|].
  rewrite Hq. destruct (q x); [now apply IHcs|].
  rewrite Hx. f_equal. now apply IHcs.
Qed.

Lemma decompose_all_none p e :
  (forall d, In d (descendants e) -> p d = false) -> decompose_all p e = e.
Proof.
  induction e as [n a cs IH|c t] using PageElement_induction; [|reflexivity].
  intros Hnone. cbn [decompose_all]. f_equal.
  induction cs as [|x cs IHcs]; [reflexivity|].
  inversion IH as [|? ? Hx Hcs]; subst.
  rewrite (Hnone x).
  2:{ apply in_descendants_child with x; [now left|].
      rewrite self_and_descendants_eq. now left. }
  rewrite Hx.
  2:{ intros d Hd. apply Hnone. apply in_descendants_child with x; [now left|].
      rewrite self_and_descendants_eq. now right. }
  f_equal. apply IHcs; [exact Hcs|].
  intros d Hd. apply Hnone. cbn [descendants] in *. cbn [flat_map].
  apply in_or_app. now right.
Qed.

(** *** Where the codec stops *)





(** *** [replace] *)

Lemma startswith_true_iff (s w : str) :
  startswith s w = true <-> exists t, s = w ++ t.
Proof.
  split.
  - intros H. exists (skipn (length w) s). now apply startswith_split.
  - intros (t & ->). apply startswith_app.
Qed.

Lemma startswith_app_cases (y t old : str) :
  startswith (y ++ t) old = true ->
  (exists y', y = old ++ y')
  \/ (length y < length old /\ startswith t (skipn (length y) old) = true).
Proof.
  revert old. induction y as [|c y IH]; intros old H.
  - destruct old as [|o old]; [left; now exists []|].
    right. split; [cbn; lia|exact H].
  - destruct old as [|o old]; [left; now exists (c :: y)|].
    cbn [app startswith] in H. apply andb_prop in H. destruct H as [Hc H].
    apply N.eqb_eq in Hc. subst o.
    destruct (IH old H) as [(y' & ->)|[Hlen Hs]].
    + left. now exists y'.
    + right. cbn [length skipn]. split; [lia|exact Hs].
Qed.

Lemma straddles_intro (old t : str) k :
  1 <= k < length old -> startswith t (skipn k old) = true ->
  straddles old t = true.
Proof.
  intros Hk H. unfold straddles. apply existsb_exists. exists k.
  split; [apply in_seq; lia|exact H].
Qed.

Lemma occurs_app_cases (old s t x y : str) :
  s ++ t = x ++ old ++ y ->
  (exists x' y', s = x' ++ old ++ y')
  \/ (exists x' y', t = x' ++ old ++ y')
  \/ straddles old t = true.
Proof.
  intros E. apply app_eq_app in E. destruct E as (l & [[Hs Ht]|[Hx Ht]]).
  - (* the occurrence begins in [s] *)
    apply app_eq_app in Ht. destruct Ht as (m & [[Hold Hm]|[Hl Hy]]).
    + destruct l as [|c l].
      * right. left. exists [], y. cbn [app] in Hold. subst m. exact Hm.
      * destruct m as [|d m].
        -- left. exists x, []. rewrite Hs, Hold. now rewrite !app_nil_r.
        -- right. right. apply straddles_intro with (k := length (c :: l)).
           ++ rewrite Hold, length_app. cbn [length]. lia.
           ++ rewrite Hold, skipn_app_exact. rewrite Hm. apply startswith_app.
    + left. exists x, m. now rewrite Hs, Hl.
  - (* it begins in [t] *)
    right. left. now exists l, y.
Qed.

Lemma replace_from_skip old new (p t : str) :
  replace_from old new (length p) (p ++ t) = replace_from old new 0 t.
Proof.
  induction p as [|c p IH]; [reflexivity|].
  cbn [length app replace_from]. exact IH.
Qed.

(** A text without an occurrence is left as it is. *)
Lemma replace_unmatched (s old new : str) :
  (forall x y, s <> x ++ old ++ y) -> replace s old new = s.
Proof.
  unfold replace. induction s as [|c s IH]; intros Hno; [reflexivity|].
  cbn [replace_from]. destruct (startswith (c :: s) old) eqn:E.
  - apply startswith_true_iff in E. destruct E as (t & E).
    exfalso. apply (Hno [] t). exact E.
  - f_equal. apply IH. intros x y E'. apply (Hno (c :: x) y).
    now rewrite E'.
Qed.

(** The first occurrence is replaced, and the scan goes on behind it. *)
Lemma replace_first (a old new b : str) :
  old <> [] ->
  (forall x y, a <> x ++ old ++ y) ->
  straddles old (old ++ b) = false ->
  replace (a ++ old ++ b) old new = a ++ new ++ replace b old new.
Proof.
  intros Hold Hno Hstr. unfold replace.
  induction a as [|c a IH].
  - destruct old as [|o old]; [congruence|].
    cbn [app replace_from].
    change (o :: old ++ b) with ((o :: old) ++ b). rewrite startswith_app.
    replace (length (o :: old) - 1) with (length old) by (cbn [length]; lia).
    now rewrite replace_from_skip.
  - cbn [app replace_from].
    destruct (startswith (c :: a ++ old ++ b) old) eqn:E.
    + exfalso.
      change (c :: a ++ old ++ b) with ((c :: a) ++ old ++ b) in E.
      apply startswith_app_cases in E. destruct E as [(y' & E)|[Hlen E]].
      * apply (Hno [] y'). exact E.
      * assert (straddles old (old ++ b) = true); [|congruence].
        apply straddles_intro with (k := length (c :: a)); [|exact E].
        cbn [length] in *. lia.
    + f_equal. apply IH. intros x y E'. apply (Hno (c :: x) y).
      now rewrite E'.
Qed.

Lemma no_occurrence (old s : str) :
  search no_flags (lits old) s = false -> forall x y, s <> x ++ old ++ y.
Proof.
  intros H x y E.
  assert (search no_flags (lits old) s = true); [|congruence].
  apply search_lits_iff. now exists x, y.
Qed.

(** The file name of a saved page gives its title back. *)
Lemma file_name_title (stem : str) :
  (forall x y, stem <> x ++ py ".html" ++ y) ->
  (forall x y, stem <> x ++ FILENAME_SUFFIX ++ y) ->
  replace (replace (stem ++ py ".html") (py ".html") []) FILENAME_SUFFIX []
  = stem
  /\ replace (replace (stem ++ FILENAME_SUFFIX ++ py ".html") (py ".html") [])
             FILENAME_SUFFIX []
     = stem.
Proof.
  intros Hext Hsuf. split.
  - rewrite <- (app_nil_r (py ".html")) at 1.
    rewrite replace_first; [|discriminate|exact Hext|reflexivity].
    cbn [app]. change (replace [] (py ".html") []) with (@nil char).
    rewrite app_nil_r. now apply replace_unmatched.
  - replace (stem ++ FILENAME_SUFFIX ++ py ".html")
      with ((stem ++ FILENAME_SUFFIX) ++ py ".html" ++ [])
      by now rewrite app_nil_r, <- app_assoc.
    rewrite replace_first; [|discriminate| |reflexivity].
    + cbn [app]. change (replace [] (py ".html") []) with (@nil char).
      rewrite app_nil_r.
      rewrite <- (app_nil_r FILENAME_SUFFIX) at 1.
      rewrite replace_first; [|discriminate|exact Hsuf|reflexivity].
      cbn [app]. change (replace [] FILENAME_SUFFIX []) with (@nil char).
      now rewrite app_nil_r.
    + intros x y E. apply occurs_app_cases in E.
      destruct E as [(x' & y' & E)|[(x' & y' & E)|E]].
      * now apply (Hext x' y').
      * revert E. now apply no_occurrence.
      * discriminate E.
Qed.

(** ** The table and the call log over a batch *)

Lemma NoDup_snoc {A} (l : list A) x : NoDup l -> ~ In x l -> NoDup (l ++ [x]).
Proof.
  induction 1 as [|y l Hy Hl IH]; intros Hx; cbn [app].
  - constructor; [intros []|constructor].
  - constructor.
    + intros Hin. apply in_app_or in Hin. destruct Hin as [Hin|[->|[]]].
      * now apply Hy.
      * apply Hx. now left.
    + apply IH. intros Hin. apply Hx. now right.
Qed.

Lemma stored_hash_false h db : stored_hash h db = false -> ~ In h (stored_hashes db).
Proof.
  unfold stored_hash, stored_hashes. intros H Hin.
  apply in_map_iff in Hin. destruct Hin as (row & <- & Hrow).
  assert (E : existsb (has_content_hash (content_hash (fields row))) (rows db) = true).
  { apply existsb_exists. exists row. split; [exact Hrow|apply str_eqb_refl]. }
  congruence.
Qed.

Lemma stored_title_false t db : stored_title t db = false -> ~ In t (stored_titles db).
Proof.
  unfold stored_title, stored_titles. intros H Hin.
  apply in_map_iff in Hin. destruct Hin as (row & <- & Hrow).
  assert (E : existsb (has_title (title (fields row))) (rows db) = true).
  { apply existsb_exists. exists row. split; [exact Hrow|apply str_eqb_refl]. }
  congruence.
Qed.




Lemma Iteration_unique total i cond f st st' :
  Iteration total i cond f st st' ->
  unique_keys (supabase st) -> unique_keys (supabase st').
Proof.
  unfold unique_keys, stored_hashes, stored_titles.
  intros Hit [Hh Ht]. destruct Hit; states; try (now split).
  rewrite !map_app. cbn [map fields]. split; apply NoDup_snoc; try assumption.
  - now apply stored_hash_false.
  - now apply stored_title_false.
Qed.

Lemma loop_unique conditions total html_files :
  forall i st,
    unique_keys (supabase st) ->
    unique_keys (supabase (loop conditions total i html_files st)).
Proof.
  induction html_files as [|f rest IH]; intros i st H; [exact H|].
  cbn [loop]. apply IH.
  exact (Iteration_unique (iteration_cases total i (conditions i) f st) H).
Qed.

Lemma Iteration_new_rows total i cond f st st' :
  Iteration total i cond f st st' ->
  exists new,
    rows (supabase st') = rows (supabase st) ++ new
    /\ forall row, In row new ->
         exists html_content,
           read f = Ok html_content
           /\ extract_article_data html_content (name f) = Ok (fields row).
Proof.
  intros Hit. destruct Hit; states;
    try (exists []; rewrite app_nil_r; split; [reflexivity|intros ? []]).
  eexists. split; [reflexivity|]. intros row [<-|[]]. cbn [fields].
  now exists html_content.
Qed.

Lemma loop_new_rows conditions total html_files :
  forall i st,
    exists new,
      rows (supabase (loop conditions total i html_files st))
      = rows (supabase st) ++ new
      /\ forall row, In row new ->
           exists f html_content,
             In f html_files
             /\ read f = Ok html_content
             /\ extract_article_data html_content (name f) = Ok (fields row).
Proof.
  induction html_files as [|f rest IH]; intros i st.
  - exists []. rewrite app_nil_r. split; [reflexivity|intros ? []].
  - cbn [loop].
    destruct (Iteration_new_rows (iteration_cases total i (conditions i) f st))
      as (new1 & E1 & H1).
    destruct (IH (S i) (iteration total i (conditions i) f st))
      as (new2 & E2 & H2).
    exists (new1 ++ new2). split; [now rewrite E2, E1, app_assoc|].
    intros row Hin. apply in_app_or in Hin. destruct Hin as [Hin|Hin].
    + destruct (H1 row Hin) as (html & Hr & He). exists f, html.
      split; [now left|now split].
    + destruct (H2 row Hin) as (f' & html & Hf & Hr & He). exists f', html.
      split; [now right|now split].
Qed.

(** *** A batch run twice *)





(** *** The calls one document causes *)



(** *** The lines one document prints *)


(** ** Further properties of the extractor *)

(** X2.  The cleaned text of a record is in normal form: it has no
    leading or trailing whitespace, neither pattern of the clean-up
    matches it any more (no three newlines in a row, no "share this:" in
    any case), and cleaning it again changes nothing. *)
Theorem cleaned_text_is_a_fixed_point html_content filename r :
  extract_article_data html_content filename = Ok r ->
  let t := cleaned_text r in
  strip t = t
  /\ search no_flags NEWLINES t = false
  /\ search SHARE_FLAGS SHARE_FOOTER t = false
  /\ (forall a b, t <> a ++ [NEWLINE; NEWLINE; NEWLINE] ++ b)
  /\ (forall a b, t = a ++ b ->
                  Spec.starts_with_ignoring_case b SHARE_THIS = false)
  /\ clean_up t = t.
Proof.
  intros H t. destruct (extract_Ok _ _ H) as (pub & utf8 & _ & _ & ->).
  cbn [cleaned_text] in t.
  destruct (clean_up_normal (extract_body (BeautifulSoup html_content)))
    as (Hstrip & Hnl & Hshare & Hfix).
  fold t in Hstrip, Hnl, Hshare, Hfix.
  split; [exact Hstrip|]. split; [exact Hnl|]. split; [exact Hshare|].
  split; [|split; [|exact Hfix]].
  - intros a b E.
    assert (Hfound : search no_flags NEWLINES t = true); [|congruence].
    apply search_true_iff. exists a, ([NEWLINE; NEWLINE; NEWLINE] ++ b).
    split; [exact E|]. now rewrite match_at_NEWLINES.
  - intros a b E.
    destruct (Spec.starts_with_ignoring_case b SHARE_THIS) eqn:Hb;
      [|reflexivity].
    assert (Hfound : search SHARE_FLAGS SHARE_FOOTER t = true); [|congruence].
    apply search_true_iff. exists a, b. split; [exact E|].
    now rewrite match_at_SHARE_FOOTER, Hb.
Qed.

(** X3.  [word_count] is the number of maximal runs of non-whitespace
    characters of [cleaned_text]: the tokens are not empty, hold no
    whitespace, and together are the non-whitespace characters of the
    text in order.  So [word_count] is 0 exactly for the empty text, and
    never more than the number of non-whitespace characters. *)
Theorem word_count_counts_tokens html_content filename r :
  extract_article_data html_content filename = Ok r ->
  let tokens := split (cleaned_text r) in
  word_count r = length tokens
  /\ Forall (fun w => w <> [] /\ forallb visible w = true) tokens
  /\ concat tokens = filter visible (cleaned_text r)
  /\ word_count r <= nonspace (cleaned_text r)
  /\ (word_count r = 0 <-> cleaned_text r = []).
Proof.
  intros H tokens.
  destruct (extract_Ok _ _ H) as (pub & utf8 & _ & _ & E).
  assert (Hwc : word_count r = length tokens) by (subst r; reflexivity).
  assert (Hstrip : strip (cleaned_text r) = cleaned_text r).
  { rewrite E. cbn [cleaned_text]. apply clean_up_normal. }
  destruct (split_tokens (cleaned_text r)) as [Hcat Htok]. fold tokens in Hcat, Htok.
  split; [exact Hwc|]. split; [exact Htok|]. split; [exact Hcat|]. split.
  - rewrite Hwc. unfold nonspace. fold visible. rewrite <- Hcat.
    now apply length_concat_tokens.
  - rewrite Hwc. split.
    + intros Hz. apply stripped_all_space; [exact Hstrip|].
      apply split_nil_iff. now apply length_zero_iff_nil.
    + intros E0. unfold tokens. now rewrite E0.
Qed.

(** X4.  The class pattern [related|jp-relatedposts] is a test for the
    substring "related": an element matches exactly when one of its class
    values, or the values joined by a space, contains "related" (so the
    second alternative adds nothing, and a class such as "unrelated" is
    removed as well).  The container pattern is the same test for
    "entry-content". *)
Theorem class_patterns_are_substring_tests e :
  (class_matches RELATED e = true
   <-> exists vs, values e (py "class") = Some vs
                  /\ exists v a b, In v (join [SPACE] vs :: vs)
                                   /\ v = a ++ py "related" ++ b)
  /\ class_matches RELATED e = class_matches (lits (py "related")) e
  /\ (class_matches ENTRY_CONTENT e = true
      <-> exists vs, values e (py "class") = Some vs
                     /\ exists v a b, In v (join [SPACE] vs :: vs)
                                      /\ v = a ++ py "entry-content" ++ b).
Proof.
  split; [apply class_matches_iff, search_RELATED_iff|]. split.
  - destruct e as [n attrs cs|c t]; [|reflexivity]. cbn [class_matches].
    destruct (values (Tag n attrs cs) (py "class")) as [vs|]; [|reflexivity].
    unfold values_match_re. rewrite search_RELATED_lits. f_equal.
    induction vs as [|v vs IH]; [reflexivity|].
    cbn [existsb]. now rewrite search_RELATED_lits, IH.
  - apply class_matches_iff. intros s. apply search_lits_iff.
Qed.


(** X6.  When the entry-content container is found, the two removal loops
    amount to one pass that cuts out every element that is a [script],
    [style], [nav] or [aside] or has a related-content class; their order
    does not matter, and a container without such elements is read as it
    is. *)
Theorem removal_loops_compose soup content_div :
  find (fun e => has_name [py "div"] e && class_matches ENTRY_CONTENT e) soup
  = Some content_div ->
  let unwanted_or_related :=
    fun x => has_name UNWANTED x || class_matches RELATED x in
  extract_body soup
  = get_text_stripped [NEWLINE] (decompose_all unwanted_or_related content_div)
  /\ decompose_all (class_matches RELATED)
       (decompose_all (has_name UNWANTED) content_div)
     = decompose_all (has_name UNWANTED)
         (decompose_all (class_matches RELATED) content_div)
  /\ ((forall d, In d (descendants content_div) ->
                 unwanted_or_related d = false) ->
      extract_body soup = get_text_stripped [NEWLINE] content_div).
Proof.
  intros Hfind unwanted_or_related.
  assert (Htwice : decompose_all (class_matches RELATED)
                     (decompose_all (has_name UNWANTED) content_div)
                   = decompose_all unwanted_or_related content_div).
  { apply decompose_all_twice. intros p' d. apply class_matches_decompose_all. }
  assert (Hbody : extract_body soup
                  = get_text_stripped [NEWLINE]
                      (decompose_all unwanted_or_related content_div)).
  { unfold extract_body. rewrite Hfind. cbn zeta. now rewrite Htwice. }
  split; [exact Hbody|]. split.
  - rewrite Htwice.
    rewrite (@decompose_all_twice (class_matches RELATED) (has_name UNWANTED)).
    2:{ intros p' d. apply has_name_decompose_all. }
    apply decompose_all_ext. intros x. apply orb_comm.
  - intros Hnone. rewrite Hbody. now rewrite decompose_all_none.
Qed.

(** X11.  Without a title element, the file name of a saved page gives
    the title back: for a name [stem.html] or
    [stem – Stratechery by Ben Thompson.html], where [stem] holds neither
    ".html" nor the attribution suffix, [title] is [stem]. *)
Theorem title_from_file_name html_content filename r stem :
  extract_article_data html_content filename = Ok r ->
  find (has_name [py "title"]) (BeautifulSoup html_content) = None ->
  (forall x y, stem <> x ++ py ".html" ++ y) ->
  (forall x y, stem <> x ++ FILENAME_SUFFIX ++ y) ->
  filename = stem ++ py ".html"
  \/ filename = stem ++ FILENAME_SUFFIX ++ py ".html" ->
  title r = stem.
Proof.
  intros H Hnone Hext Hsuf Hname.
  destruct (extract_Ok _ _ H) as (pub & utf8 & _ & _ & ->).
  cbn [title]. unfold extract_title. rewrite Hnone.
  destruct (file_name_title Hext Hsuf) as [Hplain Hsuffixed].
  destruct Hname as [->| ->]; assumption.
Qed.

(** ** Further properties of the ingestion loop *)

(** X7.  A table that holds no content hash twice and no title twice is
    such a table after the batch, whatever the store's lookups and inserts
    do during it: a row is only added after both lookups answered that its
    hash and its title are not stored. *)
Theorem batch_keeps_keys_unique directory html_files conditions client :
  unique_keys client ->
  unique_keys
    (supabase (fst (ingest_html_files directory html_files conditions client))).
Proof.
  intros H. unfold ingest_html_files. cbn [fst supabase].
  now apply loop_unique.
Qed.



(** X10.  Every row a batch adds holds, field for field, the record the
    extractor returned for one of the files of the batch, with the file's
    content as [raw_html]; the rows that were there stay, in their
    order. *)
Theorem stored_rows_are_extracted_records directory html_files conditions
    client :
  let st := fst (ingest_html_files directory html_files conditions client) in
  exists new,
    rows (supabase st) = rows client ++ new
    /\ length new = snd (ingest_html_files directory html_files conditions client)
    /\ forall row, In row new ->
         exists f html_content,
           In f html_files
           /\ read f = Ok html_content
           /\ extract_article_data html_content (name f) = Ok (fields row)
           /\ raw_html (fields row) = html_content.
Proof.
  cbn zeta. unfold ingest_html_files. cbn [fst snd supabase successful].
  destruct (loop_new_rows conditions (length html_files) html_files 1
              (start directory (length html_files) client))
    as (new & E & Hnew).
  exists new. cbn [start supabase] in E. split; [exact E|]. split.
  - pose proof (loop_inserted conditions (length html_files) html_files 1
                  (start directory (length html_files) client)) as H.
    cbn zeta in H. cbn [start supabase successful] in H.
    rewrite E, length_app in H. lia.
  - intros row Hin. destruct (Hnew row Hin) as (f & html & Hf & Hr & He).
    exists f, html. repeat split; try assumption.
    destruct (extract_Ok _ _ He) as (pub & utf8 & _ & _ & ->). reflexivity.
Qed.


End Program.

(* ================================================================== *)
(** * Counterexamples *)


Lemma title_suffix_is_case_sensitive :
  (exists r,
      extract_article_data html_parser no_date no_format
        LOWER_CASE_HTML (py "a.html") = Ok r
      /\ title r = py "A - stratechery by ben thompson")
  /\ Spec.resolve_title (html_parser LOWER_CASE_HTML) (py "a.html") = py "A"
  /\ (exists r,
         extract_article_data html_parser no_date no_format
           (py "plain words") (py "A - Stratechery by Ben Thompson.html") = Ok r
         /\ title r = py "A - Stratechery by Ben Thompson")
  /\ Spec.resolve_title (html_parser (py "plain words"))
       (py "A - Stratechery by Ben Thompson.html") = py "A".
Proof.
  split; [|split; [|split]].
  - eexists. split; vm_compute; reflexivity.
  - vm_compute. reflexivity.
  - eexists. split; vm_compute; reflexivity.
  - vm_compute. reflexivity.
Qed.

Lemma returned_value_omits_skipped_and_failed :
  let run html_files :=
    ingest_html_files html_parser no_date no_format DIRECTORY html_files
      (fun _ => reliable) EMPTY_STORE in
  let counts (result : State * nat) :=
    (successful (fst result), skipped (fst result), failed (fst result)) in
  snd (run []) = 0 /\ counts (run []) = (0, 0, 0)
  /\ snd (run [UNREADABLE_FILE]) = 0 /\ counts (run [UNREADABLE_FILE]) = (0, 0, 1)
  /\ ~ (exists decode : nat -> nat * nat * nat,
           decode (snd (run [])) = counts (run [])
           /\ decode (snd (run [UNREADABLE_FILE])) = counts (run [UNREADABLE_FILE])).
Proof.
  cbv zeta. repeat split; try (vm_compute; reflexivity).
  intros (decode & H1 & H2). vm_compute in H1, H2. congruence.
Qed.


(* ================================================================== *)
(** * Witnesses *)





Lemma title_resolution_witness :
  (exists r title_tag,
      extract_article_data html_parser no_date no_format
        ANTITRUST_HTML (py "antitrust.html") = Ok r
      /\ find (has_name [py "title"]) (html_parser ANTITRUST_HTML)
         = Some title_tag
      /\ all_space [SPACE] /\ is_dash EN_DASH /\ all_space []
      /\ get_text title_tag
         = py "Antitrust in 2024" ++ [SPACE] ++ [EN_DASH] ++ [SPACE]
           ++ ATTRIBUTION ++ []
      /\ title r = py "Antitrust in 2024")
  /\ (exists r title_tag,
         extract_article_data html_parser no_date no_format
           LOWER_CASE_HTML (py "a.html") = Ok r
         /\ find (has_name [py "title"]) (html_parser LOWER_CASE_HTML)
            = Some title_tag
         /\ cut_where is_attribution_suffix (get_text title_tag)
            = get_text title_tag
         /\ title r = py "A - stratechery by ben thompson")
  /\ (exists r,
         extract_article_data html_parser no_date no_format
           (py "plain words") (py "notes.html") = Ok r
         /\ find (has_name [py "title"]) (html_parser (py "plain words")) = None
         /\ title r = py "notes").
Proof.
  split; [|split].
  - eexists. eexists.
    assert (H : extract_article_data html_parser no_date no_format
                  ANTITRUST_HTML (py "antitrust.html") = Ok _)
      by (vm_compute; reflexivity).
    assert (Hfind : find (has_name [py "title"]) (html_parser ANTITRUST_HTML)
                    = Some _) by (vm_compute; reflexivity).
    split; [exact H|]. split; [exact Hfind|].
    assert (H1 : all_space [SPACE]) by reflexivity.
    assert (Hd : is_dash EN_DASH) by (left; reflexivity).
    assert (H3 : all_space []) by reflexivity.
    split; [exact H1|]. split; [exact Hd|]. split; [exact H3|].
    split; [reflexivity|].
    destruct (title_resolution _ _ _ _ _ H) as (Hwith & _).
    destruct (Hwith _ Hfind) as (Hsuffix & _).
    exact (Hsuffix (py "Antitrust in 2024") [SPACE] EN_DASH [SPACE] []
             H1 Hd H1 H3 eq_refl).
  - eexists. eexists.
    assert (H : extract_article_data html_parser no_date no_format
                  LOWER_CASE_HTML (py "a.html") = Ok _)
      by (vm_compute; reflexivity).
    assert (Hfind : find (has_name [py "title"]) (html_parser LOWER_CASE_HTML)
                    = Some _) by (vm_compute; reflexivity).
    split; [exact H|]. split; [exact Hfind|].
    match goal with
    | |- cut_where ?P ?t = _ /\ _ =>
        assert (Hcut : cut_where P t = t) by (vm_compute; reflexivity)
    end.
    split; [exact Hcut|].
    destruct (title_resolution _ _ _ _ _ H) as (Hwith & _).
    destruct (Hwith _ Hfind) as (_ & Hplain & _).
    exact (Hplain (no_suffix_when_uncut Hcut)).
  - eexists.
    assert (H : extract_article_data html_parser no_date no_format
                  (py "plain words") (py "notes.html") = Ok _)
      by (vm_compute; reflexivity).
    split; [exact H|]. split; [reflexivity|].
    destruct (title_resolution _ _ _ _ _ H) as (_ & Hwithout).
    exact (Hwithout eq_refl).
Defined.

Lemma text_normalization_witness :
  exists r,
    extract_article_data html_parser no_date no_format
      FOOTER_HTML (py "post.html") = Ok r
    /\ cleaned_text r
       = Spec.normalize (extract_body (html_parser FOOTER_HTML))
    /\ cleaned_text r = py "Body".
Proof.
  eexists.
  assert (H : extract_article_data html_parser no_date no_format
                FOOTER_HTML (py "post.html") = Ok _)
    by (vm_compute; reflexivity).
  split; [exact H|].
  destruct (text_normalization _ _ _ _ _ H) as (Hnorm & _).
  split; [exact Hnorm|reflexivity].
Defined.





(* ================================================================== *)
(** * Witnesses of the further properties *)

Lemma cleaned_text_is_a_fixed_point_witness :
  exists r,
    extract_article_data html_parser no_date no_format
      MESSY_TEXT (py "notes.html") = Ok r
    /\ cleaned_text r = py "One" ++ [NEWLINE; NEWLINE] ++ py "two"
    /\ strip (cleaned_text r) = cleaned_text r
    /\ clean_up (cleaned_text r) = cleaned_text r.
Proof.
  eexists.
  assert (H : extract_article_data html_parser no_date no_format
                MESSY_TEXT (py "notes.html") = Ok _)
    by (vm_compute; reflexivity).
  split; [exact H|].
  destruct (@cleaned_text_is_a_fixed_point html_parser _ no_date no_format
              _ _ _ H) as (Hstrip & _ & _ & _ & _ & Hfix).
  split; [reflexivity|]. split; [exact Hstrip|exact Hfix].
Defined.

Lemma word_count_counts_tokens_witness :
  exists r,
    extract_article_data html_parser no_date no_format
      MESSY_TEXT (py "notes.html") = Ok r
    /\ split (cleaned_text r) = [py "One"; py "two"]
    /\ word_count r = 2
    /\ word_count r <= nonspace (cleaned_text r)
    /\ (word_count r = 0 <-> cleaned_text r = []).
Proof.
  eexists.
  assert (H : extract_article_data html_parser no_date no_format
                MESSY_TEXT (py "notes.html") = Ok _)
    by (vm_compute; reflexivity).
  split; [exact H|].
  destruct (@word_count_counts_tokens html_parser _ no_date no_format
              _ _ _ H) as (_ & _ & _ & Hle & Hzero).
  split; [reflexivity|]. split; [reflexivity|]. split; [exact Hle|exact Hzero].
Defined.


Lemma removal_loops_compose_witness :
  exists content_div,
    find (fun e => has_name [py "div"] e && class_matches ENTRY_CONTENT e)
         (html_parser ANTITRUST_HTML) = Some content_div
    /\ extract_body (html_parser ANTITRUST_HTML)
       = get_text_stripped [NEWLINE]
           (decompose_all
              (fun x => has_name UNWANTED x || class_matches RELATED x)
              content_div)
    /\ extract_body (html_parser ANTITRUST_HTML) = py "Regulators moved.".
Proof.
  eexists.
  assert (Hfind : find (fun e => has_name [py "div"] e
                                 && class_matches ENTRY_CONTENT e)
                    (html_parser ANTITRUST_HTML) = Some _)
    by (vm_compute; reflexivity).
  split; [exact Hfind|].
  destruct (@removal_loops_compose _ _ Hfind) as (Hbody & _).
  split; [exact Hbody|reflexivity].
Defined.

Lemma title_from_file_name_witness :
  exists r,
    extract_article_data html_parser no_date no_format
      (py "second body, retitled") (name SECOND_EDITION) = Ok r
    /\ title r = py "A".
Proof.
  eexists.
  assert (H : extract_article_data html_parser no_date no_format
                (py "second body, retitled") (name SECOND_EDITION) = Ok _)
    by (vm_compute; reflexivity).
  split; [exact H|].
  apply (@title_from_file_name html_parser _ no_date no_format
           (py "second body, retitled") (name SECOND_EDITION) _ (py "A") H).
  - reflexivity.
  - now apply no_occurrence.
  - now apply no_occurrence.
  - right. reflexivity.
Defined.

Lemma batch_keeps_keys_unique_witness :
  let html_files :=
    [ANTITRUST_FILE; COPY_FILE; FIRST_EDITION; SECOND_EDITION] in
  let st := fst (ingest_html_files html_parser no_date no_format DIRECTORY
                   html_files (fun _ => reliable) EMPTY_STORE) in
  unique_keys EMPTY_STORE
  /\ unique_keys (supabase st)
  /\ stored_titles (supabase st) = [py "Antitrust in 2024"; py "A"].
Proof.
  intros html_files st.
  assert (H : unique_keys EMPTY_STORE) by (split; constructor).
  split; [exact H|]. split.
  - exact (@batch_keeps_keys_unique html_parser _ no_date no_format DIRECTORY
             html_files (fun _ => reliable) EMPTY_STORE H).
  - vm_compute. reflexivity.
Defined.

